(** * s3-explorer-static-generator: the key-to-tree reconstruction

    A shallow embedding of the main routine of the generator (the
    [allObjects.map(...).flatMap(...).filter(...).map(...)] pipeline, the
    page model, the start-up guards and [removeLeadingTrailingSlashes]),
    followed by the properties of the specification proved about it.

    JavaScript strings are modelled as [string], arrays as [list],
    a possibly [undefined] string as [option string], and a callback that
    throws as a function into [option] ([None] is the uncaught
    [TypeError]). The program only tests strings for equality, for
    emptiness and for the characters "/" and ".", which read the same on
    the bytes of a [string] as on the code units of the JavaScript
    string; the two places that order strings ([localeCompare] and the
    default [sort]) take their order as a parameter. *)

From Stdlib Require Import String Ascii List Bool Arith Lia.
From Stdlib Require Import Permutation.
Import ListNotations.
Open Scope string_scope.

(** ** JavaScript primitives used by the program *)

Module Js.

Definition slash : ascii := "/"%char.

(** [str.split("/")]: the segments between slashes, the empty ones
    included; the empty string splits into one empty segment. *)
Fixpoint split (s : string) : list string :=
  match s with
  | EmptyString => [EmptyString]
  | String c rest =>
      if Ascii.eqb c slash then EmptyString :: split rest
      else match split rest with
           | seg :: segs => String c seg :: segs
           | [] => [String c EmptyString]
           end
  end.

(** [arr.join("/")]. *)
Definition join (parts : list string) : string := String.concat "/" parts.

(** [str.startsWith(p)]. *)
Definition startsWith (s p : string) : bool := String.prefix p s.

(** [str.endsWith("/")]. *)
Fixpoint endsWithSlash (s : string) : bool :=
  match s with
  | EmptyString => false
  | String c rest =>
      match rest with
      | EmptyString => Ascii.eqb c slash
      | String _ _ => endsWithSlash rest
      end
  end.

(** [str.substring(1)]. *)
Definition dropFirst (s : string) : string :=
  match s with
  | EmptyString => EmptyString
  | String _ rest => rest
  end.

(** [str.substring(0, str.length - 1)]. *)
Fixpoint dropLast (s : string) : string :=
  match s with
  | EmptyString => EmptyString
  | String c rest =>
      match rest with
      | EmptyString => EmptyString
      | String _ _ => String c (dropLast rest)
      end
  end.

(** Truthiness of a string and of a possibly undefined string. *)
Definition truthy (s : string) : bool := negb (String.eqb s "").

Definition truthyOpt (s : option string) : bool :=
  match s with
  | Some v => truthy v
  | None => false
  end.

(** [a === b] on possibly undefined strings. *)
Definition strictEq (a b : option string) : bool :=
  match a, b with
  | Some x, Some y => String.eqb x y
  | None, None => true
  | _, _ => false
  end.

(** [arr[arr.length - 1]], [undefined] on the empty array. *)
Fixpoint lastElement {A : Type} (l : list A) : option A :=
  match l with
  | [] => None
  | [x] => Some x
  | _ :: t => lastElement t
  end.

(** [arr.findIndex(p)]; [None] stands for -1. *)
Fixpoint findIndex {A : Type} (p : A -> bool) (l : list A) : option nat :=
  match l with
  | [] => None
  | x :: t => if p x then Some 0 else option_map S (findIndex p t)
  end.

(** [arr.filter((x, index) => p(index, x))], the index counted from [k]. *)
Fixpoint filterFrom {A : Type} (k : nat) (p : nat -> A -> bool) (l : list A)
  : list A :=
  match l with
  | [] => []
  | x :: t =>
      if p k x then x :: filterFrom (S k) p t else filterFrom (S k) p t
  end.

Definition filterIndexed {A : Type} (p : nat -> A -> bool) (l : list A)
  : list A := filterFrom 0 p l.

(** [arr.map(f)] for a callback that may throw: the first exception
    aborts the whole map. *)
Fixpoint mapThrow {A B : Type} (f : A -> option B) (l : list A)
  : option (list B) :=
  match l with
  | [] => Some []
  | x :: t =>
      match f x with
      | None => None
      | Some y =>
          match mapThrow f t with
          | None => None
          | Some ys => Some (y :: ys)
          end
      end
  end.

(** [arr.sort(cmp)] for a comparator returning a sign: a stable
    insertion sort, which is what a stable sort yields for a consistent
    comparator. *)
Fixpoint insertBy {A : Type} (cmp : A -> A -> comparison) (x : A)
  (l : list A) : list A :=
  match l with
  | [] => [x]
  | y :: t =>
      match cmp x y with
      | Gt => y :: insertBy cmp x t
      | _ => x :: y :: t
      end
  end.

Definition sortBy {A : Type} (cmp : A -> A -> comparison) (l : list A)
  : list A := fold_right (insertBy cmp) [] l.

End Js.

(** ** removeLeadingTrailingSlashes *)

(** [while (str.startsWith('/')) str = str.substring(1)]. *)
Fixpoint stripLeadingSlashes (s : string) : string :=
  match s with
  | EmptyString => EmptyString
  | String c rest =>
      if Ascii.eqb c Js.slash then stripLeadingSlashes rest else s
  end.

(** [while (str.endsWith('/')) str = str.substring(0, str.length - 1)],
    run for at most [fuel] iterations. *)
Fixpoint stripTrailingLoop (fuel : nat) (s : string) : string :=
  match fuel with
  | 0 => s
  | S fuel' =>
      if Js.endsWithSlash s then stripTrailingLoop fuel' (Js.dropLast s)
      else s
  end.

(** Every iteration removes one character, so [length s] iterations are
    enough (lemma [stripTrailingSlashes_done]). *)
Definition stripTrailingSlashes (s : string) : string :=
  stripTrailingLoop (String.length s) s.

Definition removeLeadingTrailingSlashes (str : option string)
  : option string :=
  match str with
  | None => None
  | Some s =>
      if negb (Js.truthy s) then Some s
      else Some (stripTrailingSlashes (stripLeadingSlashes s))
  end.

(** ** Data *)

Module S3.
(** An entry of [response.Contents]; only [Key] is read by the program. *)
Record Object : Type := { Key : option string }.
End S3.

(** The command-line options ([program.opts()]). *)
Record Options : Type := {
  bucket : string;
  region : string;
  endpoint : option string;
  includeHiddenFiles : bool;
  includeSitemap : bool;
  domain : string;
  rootPath : string;
  forcePathStyle : bool;
  output : string;
  verbose : bool
}.

(** A node before its children are attached. *)
Record Node : Type := {
  Key : option string;
  KeyParts : list string;
  LevelsDeep : nat;
  IsFolder : bool;
  IsFile : bool;
  IsHiddenFile : bool;
  ParentKey : string;
  FileName : string;
  URL : string
}.

(** A node of the final [result]; the children are nodes of the
    deduplicated array, which carry no [Children] themselves. *)
Record TreeNode : Type := {
  node : Node;
  Children : list Node
}.

(** ** The reconstruction pipeline *)

(** [(key?.split("/") ?? []).filter((part) => part.length > 0)]. *)
Definition keyPartsOf (key : option string) : list string :=
  filter (fun part => (0 <? String.length part)%nat)
    (match key with
     | Some k => Js.split k
     | None => []
     end).

(** [array.some((otherObject) => otherObject.Key?.startsWith(object.Key ?? "")
      && otherObject.Key !== object.Key)]. *)
Definition isFolder (array : list S3.Object) (object : S3.Object) : bool :=
  existsb
    (fun otherObject =>
       match S3.Key otherObject with
       | None => false
       | Some otherKey =>
           Js.startsWith otherKey
             (match S3.Key object with Some k => k | None => "" end)
           && negb (Js.strictEq (S3.Key otherObject) (S3.Key object))
       end)
    array.

(** [keyParts.slice(0, -1).join("/")]. *)
Definition parentKeyOf (keyParts : list string) : string :=
  Js.join (removelast keyParts).

(** [[options.rootPath, ...keyParts].join("/")]. *)
Definition folderURL (options : Options) (keyParts : list string) : string :=
  Js.join (rootPath options :: keyParts).

(** The template literal of the last branch: virtual-hosted or
    path-style, by [options.forcePathStyle]. *)
Definition s3URL (options : Options) (keyParts : list string) : string :=
  "https://"
  ++ (if forcePathStyle options then "" else bucket options ++ ".")
  ++ "s3-" ++ region options ++ ".amazonaws.com"
  ++ (if forcePathStyle options then "/" ++ bucket options else "")
  ++ "/" ++ Js.join keyParts.

(** [`${options.endpoint}/${options.bucket}/${keyParts.join("/")}`]. *)
Definition endpointURL (options : Options) (e : string)
  (keyParts : list string) : string :=
  e ++ "/" ++ bucket options ++ "/" ++ Js.join keyParts.

(** The URL of a listed object (the immediately invoked function of the
    first [map]); [options.endpoint] is tested for truthiness. *)
Definition objectURL (options : Options) (isFolder : bool)
  (keyParts : list string) : string :=
  if isFolder then folderURL options keyParts
  else
    match endpoint options with
    | Some e =>
        if Js.truthy e then endpointURL options e keyParts
        else s3URL options keyParts
    | None => s3URL options keyParts
    end.

(** The callback of the first [map]. [fileName] is [undefined] when
    [keyParts] is empty, and [fileName.startsWith(".")] then throws. *)
Definition classify (options : Options) (array : list S3.Object)
  (object : S3.Object) : option Node :=
  let keyParts := keyPartsOf (S3.Key object) in
  let levelsDeep := List.length keyParts in
  let isFolder := isFolder array object in
  let isFile := negb isFolder in
  let parentKey := parentKeyOf keyParts in
  match Js.lastElement keyParts with
  | None => None
  | Some fileName =>
      Some {| Key := S3.Key object;
              KeyParts := keyParts;
              LevelsDeep := levelsDeep;
              IsFolder := isFolder;
              IsFile := isFile;
              IsHiddenFile := Js.startsWith fileName ".";
              ParentKey := parentKey;
              FileName := fileName;
              URL := objectURL options isFolder keyParts |}
  end.

(** The folder pushed by the loop body of the [flatMap] for index [i]. *)
Definition synthesize (options : Options) (object : Node) (i : nat) : Node :=
  let key := Js.join (firstn i (KeyParts object)) in
  let key := if (String.length key =? 0)%nat then "/" else key in
  let keyParts := keyPartsOf (Some key) in
  let levelsDeep := List.length keyParts in
  let isFolder := true in
  let isFile := negb isFolder in
  let parentKey := parentKeyOf keyParts in
  let fileName :=
    match Js.lastElement keyParts with Some f => f | None => "" end in
  {| Key := Some key;
     KeyParts := keyParts;
     LevelsDeep := levelsDeep;
     IsFolder := isFolder;
     IsFile := isFile;
     IsHiddenFile := Js.startsWith fileName ".";
     ParentKey := parentKey;
     FileName := fileName;
     URL := folderURL options keyParts |}.

(** The callback of the [flatMap]: the object, then one folder for
    [i = LevelsDeep - 1] down to [0]. *)
Definition withAncestors (options : Options) (object : Node) : list Node :=
  object :: map (synthesize options object) (rev (seq 0 (LevelsDeep object))).

Definition normalizedKey (n : Node) : option string :=
  removeLeadingTrailingSlashes (Key n).

(** The [filter] that drops duplicate keys. *)
Definition dedup (array : list Node) : list Node :=
  Js.filterIndexed
    (fun index object =>
       match Js.findIndex
               (fun otherObject =>
                  Js.strictEq (normalizedKey otherObject)
                    (normalizedKey object))
               array with
       | Some found => (found =? index)%nat
       | None => false
       end)
    array.

(** The [Children] computed by the last [map]. *)
Definition childrenOf (array : list Node) (object : Node) : list Node :=
  if Js.strictEq (Key object) (Some "/") then
    filter (fun otherObject => (LevelsDeep otherObject =? 1)%nat) array
  else
    filter
      (fun otherObject =>
         Js.strictEq
           (removeLeadingTrailingSlashes (Some (ParentKey otherObject)))
           (removeLeadingTrailingSlashes (Key object)))
      array.

Definition attachChildren (array : list Node) : list TreeNode :=
  map (fun object => {| node := object; Children := childrenOf array object |})
    array.

(** The sequence after the [flatMap]: listed and synthesized nodes. *)
Definition merged (options : Options) (classified : list Node) : list Node :=
  flat_map (withAncestors options) classified.

(** The first [map] over the whole listing; [None] when a callback
    throws. *)
Definition classifyAll (options : Options) (allObjects : list S3.Object)
  : option (list Node) :=
  Js.mapThrow (classify options allObjects) allObjects.

(** [result]: [None] when the first [map] throws. *)
Definition result (options : Options) (allObjects : list S3.Object)
  : option (list TreeNode) :=
  match classifyAll options allObjects with
  | None => None
  | Some classified => Some (attachChildren (dedup (merged options classified)))
  end.

(** ** Page model, sitemap and the main routine *)

(** [new ListObjectsCommand({...})] and the part of the response the
    program reads. *)
Record ListObjectsCommand : Type := {
  Bucket : string;
  MaxKeys : nat;
  Marker : option string
}.

Record Response : Type := {
  Contents : option (list S3.Object);
  NextMarker : option string
}.

(** The model handed to the template for one folder. *)
Record Page : Type := {
  title : string;
  items : list Node
}.

(** What the run does to the outside world, in program order. *)
Inductive Effect : Type :=
| ConsoleLog (message : string)
| ConsoleError (message : string)
| ConsoleLogResult (tree : list TreeNode)
| Send (command : ListObjectsCommand)
| Mkdir (outputPath : string) (key : option string)
| WriteIndex (outputPath : string) (key : option string) (page : Page)
| WriteSitemap (outputPath : string) (urls : list string)
| CopyPublic (outputPath : string).

(** How the run ends: [process.exit(code)], normal completion, an
    uncaught rejection, or still listing when the fuel ran out. *)
Inductive Status : Type :=
| Exit (code : nat)
| Finished
| Rejected
| Listing.

Record Outcome : Type := {
  trace : list Effect;
  status : Status
}.

Inductive Listed : Type :=
| AllObjects (objects : list S3.Object)
| SendRejected
| StillListing.

(** The [do ... while (response.NextMarker)] loop; [send] is the storage
    client, [None] a rejected request. *)
Fixpoint listAll (fuel : nat) (send : ListObjectsCommand -> option Response)
  (options : Options) (command : ListObjectsCommand)
  : list Effect * Listed :=
  match fuel with
  | 0 => ([], StillListing)
  | S fuel' =>
      match send command with
      | None => ([Send command], SendRejected)
      | Some response =>
          let contents :=
            match Contents response with Some c => c | None => [] end in
          if Js.truthyOpt (NextMarker response) then
            let next := {| Bucket := bucket options;
                           MaxKeys := 100;
                           Marker := NextMarker response |} in
            let (sent, rest) := listAll fuel' send options next in
            (Send command :: sent,
             match rest with
             | AllObjects objects => AllObjects (contents ++ objects)
             | SendRejected => SendRejected
             | StillListing => StillListing
             end)
          else ([Send command], AllObjects contents)
      end
  end.

(** [object.Children.filter((child) =>
      options.includeHiddenFiles || !child.IsHiddenFile)]. *)
Definition visibleChildren (options : Options) (object : TreeNode)
  : list Node :=
  filter
    (fun child => includeHiddenFiles options || negb (IsHiddenFile child))
    (Children object).

(** The sitemap entry added for one page:
    [[domain, rootPath, Key].map(removeLeadingTrailingSlashes)
       .filter(Boolean).join("/")]. *)
Definition sitemapEntry (options : Options) (object : TreeNode) : string :=
  Js.join
    (flat_map
       (fun item =>
          match removeLeadingTrailingSlashes item with
          | Some s => if Js.truthy s then [s] else []
          | None => []
          end)
       [Some (domain options); Some (rootPath options); Key (node object)]).

(** The lines that force path style when an endpoint is given. *)
Definition forcesPathStyle (options : Options) : bool :=
  Js.truthyOpt (endpoint options) && negb (forcePathStyle options).

Definition normalizeOptions (options : Options) : Options :=
  if forcesPathStyle options then
    {| bucket := bucket options;
       region := region options;
       endpoint := endpoint options;
       includeHiddenFiles := includeHiddenFiles options;
       includeSitemap := includeSitemap options;
       domain := domain options;
       rootPath := rootPath options;
       forcePathStyle := true;
       output := output options;
       verbose := verbose options |}
  else options.

Section Emit.

(** The sign of [a.localeCompare(b)], which depends on the host's locale
    data. *)
Variable localeCompare : string -> string -> comparison.

(** The comparator given to [sort]. *)
Definition compareItems (a b : Node) : comparison :=
  if IsFolder a && negb (IsFolder b) then Lt
  else if negb (IsFolder a) && IsFolder b then Gt
  else localeCompare (FileName a) (FileName b).

(** The ["items"] of the model rendered for [object]. *)
Definition pageItems (options : Options) (object : TreeNode) : list Node :=
  Js.sortBy compareItems (visibleChildren options object).

(** The body of the callback under [Promise.all]: nothing for a file,
    one directory and one [index.html] for a folder. *)
Definition emitPage (options : Options) (object : TreeNode) : list Effect :=
  if IsFile (node object) then []
  else
    [Mkdir (output options) (Key (node object));
     WriteIndex (output options) (Key (node object))
       {| title := bucket options ++ " - " ++ FileName (node object);
          items := pageItems options object |}].

(** The tasks under [Promise.all] are started in array order and joined
    before the sitemap is written; their effects are listed in that
    order. *)
Definition emitPages (options : Options) (tree : list TreeNode)
  : list Effect := flat_map (emitPage options) tree.

(** The order of [sort()] without a comparator: strings by their
    UTF-16 code units. *)
Variable compareCodeUnits : string -> string -> comparison.

(** The sitemap set, spread and sorted. *)
Definition sitemapUrls (options : Options) (tree : list TreeNode)
  : list string :=
  Js.sortBy compareCodeUnits
    (nodup string_dec
       (map (sitemapEntry options)
          (filter (fun object => negb (IsFile (node object))) tree))).

Definition emitSitemap (options : Options) (tree : list TreeNode)
  : list Effect :=
  if includeSitemap options then
    [WriteSitemap (output options) (sitemapUrls options tree)]
  else [].

(** The main routine, from the first line of the async function. The
    calls to the template engine and to the file system under
    [Promise.all] and after it are taken to succeed: a run in which one
    of them rejects aborts there, with whatever the tasks under way have
    written by then, and is not described by this function. [Rejected]
    is so the status of a run that throws before the first page: on a
    rejected listing request or in the classification. *)
Definition run (fuel : nat) (send : ListObjectsCommand -> option Response)
  (cli : Options) : Outcome :=
  let started :=
    ((if verbose cli then [ConsoleLog "Verbose output enabled."] else [])
     ++ (if forcesPathStyle cli && verbose cli
         then [ConsoleLog "Forcing Path Style since endpoint is specified."]
         else []))%list in
  let options := normalizeOptions cli in
  if includeSitemap options && negb (Js.truthy (domain options)) then
    {| trace := (started ++ [ConsoleError
         "Domain is required if using sitemap. Domain is not currently set. Please set the --domain option."])%list;
       status := Exit 1 |}
  else if negb (Js.truthy (bucket options)) then
    {| trace := (started ++ [ConsoleError
         "Bucket not set. Please set the AWS_BUCKET environment variable or use the --bucket option."])%list;
       status := Exit 1 |}
  else
    let first := {| Bucket := bucket options;
                    MaxKeys := 1000;
                    Marker := None |} in
    let (sent, listed) := listAll fuel send options first in
    match listed with
    | StillListing => {| trace := (started ++ sent)%list; status := Listing |}
    | SendRejected =>
        {| trace := (started ++ sent)%list; status := Rejected |}
    | AllObjects allObjects =>
        match result options allObjects with
        | None => {| trace := (started ++ sent)%list; status := Rejected |}
        | Some tree =>
            {| trace := (started ++ sent ++ [ConsoleLogResult tree]
                         ++ emitPages options tree
                         ++ emitSitemap options tree
                         ++ [CopyPublic (output options)])%list;
               status := Finished |}
        end
    end.

End Emit.

(** ** Vocabulary used by the statements *)

(** The string has a slash somewhere. *)
Fixpoint containsSlash (s : string) : bool :=
  match s with
  | EmptyString => false
  | String c rest => Ascii.eqb c Js.slash || containsSlash rest
  end.

(** A path segment: not empty and free of slashes. *)
Definition isSegment (s : string) : bool :=
  (0 <? String.length s)%nat && negb (containsSlash s).

(** The string is made of slashes only (the empty string included). *)
Fixpoint onlySlashes (s : string) : bool :=
  match s with
  | EmptyString => true
  | String c rest => Ascii.eqb c Js.slash && onlySlashes rest
  end.

(** Two slashes in a row occur somewhere in the string. *)
Fixpoint hasDoubleSlash (s : string) : bool :=
  match s with
  | EmptyString => false
  | String c rest =>
      (Ascii.eqb c Js.slash && Js.startsWith rest "/") || hasDoubleSlash rest
  end.

(** A key with no leading slash and no doubled slash: every segment but
    possibly an empty one after a final slash is a real segment. *)
Definition tidyKey (k : string) : bool :=
  negb (Js.startsWith k "/") && negb (hasDoubleSlash k).

Definition tidyListing (allObjects : list S3.Object) : bool :=
  forallb
    (fun object =>
       match S3.Key object with
       | Some k => tidyKey k
       | None => true
       end)
    allObjects.

(** The first node of a sequence with a given normalized key. *)
Definition firstWithKey (k : option string) (array : list Node)
  : option Node :=
  find (fun n => Js.strictEq (normalizedKey n) k) array.

(** The node's segments are exactly [parts]. *)
Definition hasKeyParts (parts : list string) (n : Node) : bool :=
  if list_eq_dec string_dec (KeyParts n) parts then true else false.

(** The effect is a request to the storage service. *)
Definition isListingRequest (e : Effect) : bool :=
  match e with
  | Send _ => true
  | _ => false
  end.

(** The effect creates or writes something under the output path. *)
Definition writesOutput (e : Effect) : bool :=
  match e with
  | Mkdir _ _ | WriteIndex _ _ _ | WriteSitemap _ _ | CopyPublic _ => true
  | _ => false
  end.

(** An object of the listing with a defined key. *)
Definition objectWithKey (k : string) : S3.Object := {| S3.Key := Some k |}.

(** The options when only [--bucket] and [--region] are given. *)
Definition defaults (b r : string) : Options :=
  {| bucket := b;
     region := r;
     endpoint := None;
     includeHiddenFiles := false;
     includeSitemap := false;
     domain := "";
     rootPath := "/";
     forcePathStyle := false;
     output := ".";
     verbose := false |}.

(** A sample run: one object two levels deep, default options. *)
Definition sampleOptions : Options := defaults "site" "us-east-1".

Definition sampleListing : list S3.Object :=
  [objectWithKey "docs/readme.md"].

Definition sampleFile : Node :=
  {| Key := Some "docs/readme.md";
     KeyParts := ["docs"; "readme.md"];
     LevelsDeep := 2;
     IsFolder := false;
     IsFile := true;
     IsHiddenFile := false;
     ParentKey := "docs";
     FileName := "readme.md";
     URL := "https://site.s3-us-east-1.amazonaws.com/docs/readme.md" |}.

Definition sampleDocs : Node :=
  {| Key := Some "docs";
     KeyParts := ["docs"];
     LevelsDeep := 1;
     IsFolder := true;
     IsFile := false;
     IsHiddenFile := false;
     ParentKey := "";
     FileName := "docs";
     URL := "//docs" |}.

Definition sampleRoot : Node :=
  {| Key := Some "/";
     KeyParts := [];
     LevelsDeep := 0;
     IsFolder := true;
     IsFile := false;
     IsHiddenFile := false;
     ParentKey := "";
     FileName := "";
     URL := "/" |}.

Definition sampleTree : list TreeNode :=
  [{| node := sampleFile; Children := [] |};
   {| node := sampleDocs; Children := [sampleFile] |};
   {| node := sampleRoot; Children := [sampleDocs] |}].

(** The options of a run that asks for a sitemap and names no domain. *)
Definition sitemapWithoutDomain : Options :=
  {| bucket := "site";
     region := "us-east-1";
     endpoint := None;
     includeHiddenFiles := false;
     includeSitemap := true;
     domain := "";
     rootPath := "/";
     forcePathStyle := false;
     output := ".";
     verbose := true |}.

(** A storage service with one page holding the sample listing. *)
Definition sampleService (command : ListObjectsCommand) : option Response :=
  Some {| Contents := Some sampleListing; NextMarker := None |}.

(** A storage service for an empty bucket: no [Contents], no marker. *)
Definition emptyService (command : ListObjectsCommand) : option Response :=
  Some {| Contents := None; NextMarker := None |}.

(** ** Further vocabulary *)

(** The node pushed by the [flatMap] for [i = 0], whatever the object. *)
Definition rootNode (options : Options) : Node :=
  {| Key := Some "/";
     KeyParts := [];
     LevelsDeep := 0;
     IsFolder := true;
     IsFile := false;
     IsHiddenFile := false;
     ParentKey := "";
     FileName := "";
     URL := rootPath options |}.

(** No file comes before a folder. *)
Fixpoint foldersFirst (l : list Node) : bool :=
  match l with
  | [] => true
  | x :: t =>
      (IsFolder x || forallb (fun y => negb (IsFolder y)) t) && foldersFirst t
  end.

(** No element is greater than its successor. *)
Fixpoint ascending {A : Type} (cmp : A -> A -> comparison) (l : list A)
  : Prop :=
  match l with
  | [] => True
  | x :: t =>
      match t with
      | [] => True
      | y :: _ => cmp x y <> Gt /\ ascending cmp t
      end
  end.

(** The keys of the index pages written by a list of effects. *)
Definition indexKeys (effects : list Effect) : list (option string) :=
  flat_map
    (fun e =>
       match e with
       | WriteIndex _ key _ => [key]
       | _ => []
       end)
    effects.

(** The effect writes the sitemap. *)
Definition isSitemapWrite (e : Effect) : bool :=
  match e with
  | WriteSitemap _ _ => true
  | _ => false
  end.

(** The objects in the responses to the requests of a trace, in request
    order ([response.Contents ?? []] for each). *)
Definition contentsOf (send : ListObjectsCommand -> option Response)
  (effects : list Effect) : list S3.Object :=
  flat_map
    (fun e =>
       match e with
       | Send command =>
           match send command with
           | Some response =>
               match Contents response with Some c => c | None => [] end
           | None => []
           end
       | _ => []
       end)
    effects.

(** A request for a following page: 100 keys, from a non-empty marker. *)
Definition isFollowUp (options : Options) (e : Effect) : Prop :=
  exists marker,
    Js.truthy marker = true
    /\ e = Send {| Bucket := bucket options;
                   MaxKeys := 100;
                   Marker := Some marker |}.

(** A storage service with two pages, the second reached by the marker
    "m". *)
Definition twoPageService (command : ListObjectsCommand)
  : option Response :=
  match Marker command with
  | None =>
      Some {| Contents := Some [objectWithKey "a/x"];
              NextMarker := Some "m" |}
  | Some _ =>
      Some {| Contents := Some [objectWithKey "b"]; NextMarker := None |}
  end.

(** [core] is [k] without its leading and trailing slashes, said without
    the program's function: [k] is a run of slashes, then [core], then a
    run of slashes, and [core] has no slash at either end. *)
Definition stripsTo (k core : string) : Prop :=
  exists a b,
    onlySlashes a = true
    /\ onlySlashes b = true
    /\ k = a ++ core ++ b
    /\ Js.startsWith core "/" = false
    /\ Js.endsWithSlash core = false.

(** The commands sent to the storage service by a list of effects. *)
Definition sentCommands (effects : list Effect) : list ListObjectsCommand :=
  flat_map
    (fun e =>
       match e with
       | Send command => [command]
       | _ => []
       end)
    effects.


(** The listing of a run that passed the guards. *)
Definition listingOf (fuel : nat)
  (send : ListObjectsCommand -> option Response) (cli : Options)
  : list Effect * Listed :=
  listAll fuel send (normalizeOptions cli)
    {| Bucket := bucket (normalizeOptions cli);
       MaxKeys := 1000;
       Marker := None |}.

(** A storage service that rejects every request. *)
Definition rejectingService (command : ListObjectsCommand)
  : option Response := None.

(** The listing ["a"; "ab"] and its classified nodes. *)
Definition prefixListing : list S3.Object :=
  [objectWithKey "a"; objectWithKey "ab"].

Definition prefixFolder : Node :=
  {| Key := Some "a";
     KeyParts := ["a"];
     LevelsDeep := 1;
     IsFolder := true;
     IsFile := false;
     IsHiddenFile := false;
     ParentKey := "";
     FileName := "a";
     URL := "//a" |}.

Definition prefixFile : Node :=
  {| Key := Some "ab";
     KeyParts := ["ab"];
     LevelsDeep := 1;
     IsFolder := false;
     IsFile := true;
     IsHiddenFile := false;
     ParentKey := "";
     FileName := "ab";
     URL := "https://site.s3-us-east-1.amazonaws.com/ab" |}.

(** The listing ["a/"; "a/b"]: a listed folder with a trailing slash,
    the folder ["a"] synthesized for its child, and the final tree. *)
Definition slashListing : list S3.Object :=
  [objectWithKey "a/"; objectWithKey "a/b"].

Definition slashFolder : Node :=
  {| Key := Some "a/";
     KeyParts := ["a"];
     LevelsDeep := 1;
     IsFolder := true;
     IsFile := false;
     IsHiddenFile := false;
     ParentKey := "";
     FileName := "a";
     URL := "//a" |}.

Definition slashChild : Node :=
  {| Key := Some "a/b";
     KeyParts := ["a"; "b"];
     LevelsDeep := 2;
     IsFolder := false;
     IsFile := true;
     IsHiddenFile := false;
     ParentKey := "a";
     FileName := "b";
     URL := "https://site.s3-us-east-1.amazonaws.com/a/b" |}.

Definition slashSynthesized : Node :=
  {| Key := Some "a";
     KeyParts := ["a"];
     LevelsDeep := 1;
     IsFolder := true;
     IsFile := false;
     IsHiddenFile := false;
     ParentKey := "";
     FileName := "a";
     URL := "//a" |}.

Definition slashTree : list TreeNode :=
  [{| node := slashFolder; Children := [slashChild] |};
   {| node := sampleRoot; Children := [slashFolder] |};
   {| node := slashChild; Children := [] |}].

(** ** copyDir *)

(** What [fs.readdir(src, { withFileTypes: true })] shows of a directory,
    recursively: files and sub-directories by name. *)
#[local] Set Warnings "-register-all".
Inductive DirEntry : Type :=
| FileEntry (name : string)
| DirectoryEntry (name : string) (entries : list DirEntry).

(** The calls [copyDir] makes on the file system; a path is the list of
    its components, and [path.join(p, entry.name)] adds one. *)
Inductive FsCall : Type :=
| FsMkdir (path : list string)
| FsReaddir (path : list string)
| FsCopyFile (srcPath destPath : list string).

(** The calls of [copyDir(src, dest)], [entries] being what [src]
    holds: the destination is created, the source is read, and each
    entry is copied if it is a file, or handled by [copyDir] on the two
    paths extended by its name if it is a directory. The callbacks of
    [entries.map] run under [Promise.all], so the code fixes the order
    of the calls only along each [await]; the list below takes the
    entries one after the other and stands for the calls up to the
    order of those the code leaves unordered. *)
Fixpoint copyEntry (src dest : list string) (entry : DirEntry)
  : list FsCall :=
  match entry with
  | FileEntry name => [FsCopyFile (src ++ [name]) (dest ++ [name])]
  | DirectoryEntry name entries =>
      FsMkdir (dest ++ [name])
      :: FsReaddir (src ++ [name])
      :: flat_map (copyEntry (src ++ [name]) (dest ++ [name])) entries
  end.

Definition copyDir (src dest : list string) (entries : list DirEntry)
  : list FsCall :=
  FsMkdir dest :: FsReaddir src :: flat_map (copyEntry src dest) entries.

(** The files of a directory, by path relative to it. *)
Fixpoint filesOf (entry : DirEntry) : list (list string) :=
  match entry with
  | FileEntry name => [[name]]
  | DirectoryEntry name entries =>
      map (cons name) (flat_map filesOf entries)
  end.

(** The sub-directories of a directory, by relative path. *)
Fixpoint directoriesOf (entry : DirEntry) : list (list string) :=
  match entry with
  | FileEntry _ => []
  | DirectoryEntry name entries =>
      [name] :: map (cons name) (flat_map directoriesOf entries)
  end.

(** The calls that mirror a directory: one copy per file, one [mkdir]
    and one [readdir] per directory, the root included. *)
Definition mirrorCalls (src dest : list string) (entries : list DirEntry)
  : list FsCall :=
  (map (fun rel => FsCopyFile (src ++ rel) (dest ++ rel))
     (flat_map filesOf entries)
   ++ map (fun rel => FsMkdir (dest ++ rel))
        ([] :: flat_map directoriesOf entries)
   ++ map (fun rel => FsReaddir (src ++ rel))
        ([] :: flat_map directoriesOf entries))%list.

(** * Properties *)

(** ** Strings: split, join and segments *)

Lemma slash_eqb_refl : Ascii.eqb Js.slash Js.slash = true.
Proof. reflexivity. Qed.

Lemma split_not_nil (s : string) : Js.split s <> [].
Proof.
  destruct s as [|c rest]; simpl; [discriminate|].
  destruct (Ascii.eqb c Js.slash); [discriminate|].
  destruct (Js.split rest); discriminate.
Qed.

Lemma split_no_slash (s : string) :
  containsSlash s = false -> Js.split s = [s].
Proof.
  induction s as [|c rest IH]; simpl; intros H; [reflexivity|].
  apply orb_false_iff in H as [Hc Hrest].
  rewrite Hc, (IH Hrest). reflexivity.
Qed.

Lemma split_append_slash (x s : string) :
  containsSlash x = false ->
  Js.split (x ++ String Js.slash s) = x :: Js.split s.
Proof.
  induction x as [|c rest IH]; simpl; intros H.
  - reflexivity.
  - apply orb_false_iff in H as [Hc Hrest].
    rewrite Hc, (IH Hrest). reflexivity.
Qed.

Lemma split_segments_slash_free (s : string) :
  Forall (fun seg => containsSlash seg = false) (Js.split s).
Proof.
  induction s as [|c rest IH]; simpl.
  - repeat constructor.
  - destruct (Ascii.eqb c Js.slash) eqn:Hc.
    + constructor; [reflexivity | exact IH].
    + destruct (Js.split rest) as [|seg segs].
      * repeat constructor. simpl. now rewrite Hc.
      * inversion IH; subst. constructor; [|assumption].
        simpl. now rewrite Hc.
Qed.

Lemma isSegment_iff (s : string) :
  isSegment s = true <-> s <> "" /\ containsSlash s = false.
Proof.
  unfold isSegment. destruct s as [|c rest].
  - simpl. split; [discriminate | intros [H _]; now elim H].
  - change ((0 <? String.length (String c rest))%nat) with true.
    rewrite andb_true_l, negb_true_iff.
    split; [intros H; split; [discriminate | exact H] | now intros [_ H]].
Qed.

Lemma keyPartsOf_segments (key : option string) :
  Forall (fun seg => isSegment seg = true) (keyPartsOf key).
Proof.
  unfold keyPartsOf. apply Forall_forall. intros seg Hin.
  apply filter_In in Hin as [Hin Hlen].
  unfold isSegment. rewrite Hlen. simpl.
  destruct key as [k|]; [|contradiction].
  pose proof (split_segments_slash_free k) as Hall.
  rewrite Forall_forall in Hall. now rewrite (Hall _ Hin).
Qed.

Lemma join_cons2 (x y : string) (t : list string) :
  Js.join (x :: y :: t) = x ++ String Js.slash (Js.join (y :: t)).
Proof. reflexivity. Qed.

Lemma split_join (parts : list string) :
  parts <> [] ->
  Forall (fun seg => containsSlash seg = false) parts ->
  Js.split (Js.join parts) = parts.
Proof.
  induction parts as [|x t IH]; intros Hne Hall; [now elim Hne|].
  inversion Hall as [|? ? Hx Ht]; subst.
  destruct t as [|y t'].
  - simpl. apply split_no_slash, Hx.
  - rewrite join_cons2, split_append_slash by exact Hx.
    f_equal. apply IH; [discriminate | exact Ht].
Qed.

Lemma filter_segments (parts : list string) :
  Forall (fun seg => isSegment seg = true) parts ->
  filter (fun part => (0 <? String.length part)%nat) parts = parts.
Proof.
  induction 1 as [|x t Hx _ IH]; simpl; [reflexivity|].
  unfold isSegment in Hx. apply andb_true_iff in Hx as [Hx _].
  now rewrite Hx, IH.
Qed.

Lemma segments_slash_free (parts : list string) :
  Forall (fun seg => isSegment seg = true) parts ->
  Forall (fun seg => containsSlash seg = false) parts.
Proof.
  apply Forall_impl. intros seg H. now apply isSegment_iff in H.
Qed.

(** Parsing a key made by joining segments gives the segments back. *)
Lemma keyPartsOf_join (parts : list string) :
  Forall (fun seg => isSegment seg = true) parts ->
  keyPartsOf (Some (Js.join parts)) = parts.
Proof.
  intros Hall. unfold keyPartsOf.
  destruct parts as [|x t]; [reflexivity|].
  rewrite split_join; [| discriminate | now apply segments_slash_free].
  now apply filter_segments.
Qed.

Lemma join_segments_inj (p q : list string) :
  Forall (fun seg => isSegment seg = true) p ->
  Forall (fun seg => isSegment seg = true) q ->
  Js.join p = Js.join q -> p = q.
Proof.
  intros Hp Hq Heq.
  rewrite <- (keyPartsOf_join p Hp), <- (keyPartsOf_join q Hq).
  now rewrite Heq.
Qed.

Lemma keyPartsOf_split_nil (k : string) :
  filter (fun part => (0 <? String.length part)%nat) (Js.split k) = []
  <-> onlySlashes k = true.
Proof.
  induction k as [|c rest IH]; simpl.
  - split; reflexivity.
  - destruct (Ascii.eqb c Js.slash); simpl.
    + exact IH.
    + destruct (Js.split rest); simpl; split; discriminate.
Qed.

Lemma keyPartsOf_nil_iff (key : option string) :
  keyPartsOf key = []
  <-> key = None \/ exists k, key = Some k /\ onlySlashes k = true.
Proof.
  destruct key as [k|]; unfold keyPartsOf.
  - rewrite keyPartsOf_split_nil. split.
    + intros H. right. now exists k.
    + intros [H | [k' [Hk H]]]; [discriminate | now inversion Hk; subst].
  - simpl. split; [now left | reflexivity].
Qed.

Lemma lastElement_None {A : Type} (l : list A) :
  Js.lastElement l = None <-> l = [].
Proof.
  induction l as [|x t IH]; simpl; [split; reflexivity|].
  destruct t as [|y t'].
  - split; discriminate.
  - rewrite IH. split; discriminate.
Qed.

(** ** The first map: when it throws and what it produces *)

Lemma classify_None (options : Options) (array : list S3.Object)
  (o : S3.Object) :
  classify options array o = None <-> keyPartsOf (S3.Key o) = [].
Proof.
  unfold classify. rewrite <- lastElement_None.
  destruct (Js.lastElement (keyPartsOf (S3.Key o))); split;
    congruence.
Qed.

Lemma classify_Some (options : Options) (array : list S3.Object)
  (o : S3.Object) (n : Node) :
  classify options array o = Some n ->
  Key n = S3.Key o
  /\ KeyParts n = keyPartsOf (S3.Key o)
  /\ KeyParts n <> []
  /\ LevelsDeep n = List.length (KeyParts n)
  /\ IsFolder n = isFolder array o
  /\ IsFile n = negb (isFolder array o)
  /\ Js.lastElement (KeyParts n) = Some (FileName n)
  /\ IsHiddenFile n = Js.startsWith (FileName n) "."
  /\ ParentKey n = parentKeyOf (KeyParts n)
  /\ URL n = objectURL options (IsFolder n) (KeyParts n).
Proof.
  unfold classify.
  destruct (Js.lastElement (keyPartsOf (S3.Key o))) as [f|] eqn:Hlast;
    [|discriminate].
  intros H. inversion H; subst; clear H. simpl.
  repeat split; try reflexivity; try assumption.
  intros Hnil. apply lastElement_None in Hnil. congruence.
Qed.

Lemma mapThrow_None {A B : Type} (f : A -> option B) (l : list A) :
  Js.mapThrow f l = None <-> exists x, In x l /\ f x = None.
Proof.
  induction l as [|x t IH]; simpl.
  - split; [discriminate | intros [x [[] _]]].
  - destruct (f x) as [y|] eqn:Hfx.
    + destruct (Js.mapThrow f t) as [ys|].
      * split; [discriminate|].
        intros [z [[Hz | Hz] Hfz]]; [congruence|].
        assert (Hex : exists x0, In x0 t /\ f x0 = None) by now exists z.
        apply IH in Hex. discriminate.
      * split; [|reflexivity]. intros _.
        destruct (proj1 IH eq_refl) as [z [Hz Hfz]].
        exists z. split; [now right | exact Hfz].
    + split; [|reflexivity]. intros _. exists x. split; [now left | exact Hfx].
Qed.

Lemma mapThrow_In {A B : Type} (f : A -> option B) (l : list A)
  (l' : list B) :
  Js.mapThrow f l = Some l' ->
  forall y, In y l' <-> exists x, In x l /\ f x = Some y.
Proof.
  revert l'. induction l as [|x t IH]; simpl; intros l' H y.
  - inversion H; subst. split; [intros [] | intros [x [[] _]]].
  - destruct (f x) as [y0|] eqn:Hfx; [|discriminate].
    destruct (Js.mapThrow f t) as [ys|]; [|discriminate].
    inversion H; subst; clear H. simpl. rewrite (IH ys eq_refl y). split.
    + intros [Hy | [z [Hz Hfz]]].
      * subst. exists x. split; [now left | exact Hfx].
      * exists z. split; [now right | exact Hfz].
    + intros [z [[Hz | Hz] Hfz]].
      * subst. left. congruence.
      * right. now exists z.
Qed.

(** ** The flatMap: where the merged nodes come from *)

Lemma withAncestors_In (options : Options) (r m : Node) :
  In m (withAncestors options r)
  <-> m = r \/ exists i, i < LevelsDeep r /\ m = synthesize options r i.
Proof.
  unfold withAncestors. simpl. rewrite in_map_iff. split.
  - intros [H | [i [Hi Hin]]]; [now left | right].
    exists i. apply in_rev in Hin. apply in_seq in Hin.
    split; [lia | now symmetry].
  - intros [H | [i [Hi Hm]]]; [now left | right].
    exists i. split; [now symmetry|].
    apply -> in_rev. apply in_seq. lia.
Qed.

Lemma merged_In (options : Options) (classified : list Node) (m : Node) :
  In m (merged options classified)
  <-> exists r, In r classified
        /\ (m = r \/ exists i, i < LevelsDeep r /\ m = synthesize options r i).
Proof.
  unfold merged. rewrite in_flat_map.
  split; intros [r [Hr H]]; exists r; split; try assumption;
    now apply withAncestors_In.
Qed.

Lemma synthesize_fields (options : Options) (r : Node) (i : nat) :
  let m := synthesize options r i in
  IsFolder m = true /\ IsFile m = false
  /\ Key m = Some (if (String.length (Js.join (firstn i (KeyParts r))) =? 0)%nat
                   then "/" else Js.join (firstn i (KeyParts r)))
  /\ KeyParts m = keyPartsOf (Key m)
  /\ LevelsDeep m = List.length (KeyParts m)
  /\ IsHiddenFile m = Js.startsWith (FileName m) "."
  /\ ParentKey m = parentKeyOf (KeyParts m)
  /\ URL m = folderURL options (KeyParts m).
Proof. simpl. repeat split. Qed.

(** ** The duplicate filter *)

Lemma strictEq_true (a b : option string) :
  Js.strictEq a b = true <-> a = b.
Proof.
  destruct a as [x|], b as [y|]; simpl;
    try (split; [discriminate | intros H; discriminate H]);
    try (split; reflexivity).
  rewrite String.eqb_eq. split; [intros -> | intros H; inversion H];
    reflexivity.
Qed.

Lemma strictEq_refl (a : option string) : Js.strictEq a a = true.
Proof. now apply strictEq_true. Qed.

Lemma filterFrom_In {A : Type} (q : nat -> A -> bool) (l : list A) :
  forall k x,
    In x (Js.filterFrom k q l)
    <-> exists i, nth_error l i = Some x /\ q (k + i) x = true.
Proof.
  induction l as [|y t IH]; intros k x; simpl.
  - split; [intros [] | intros [[|i] [H _]]; discriminate].
  - assert (Hstep : In x (Js.filterFrom (S k) q t)
                    <-> exists i, nth_error (y :: t) (S i) = Some x
                                  /\ q (k + S i) x = true).
    { rewrite IH. split; intros [i [H1 H2]]; exists i; split; auto;
        now replace (k + S i) with (S k + i) in * by lia. }
    destruct (q k y) eqn:Hq; simpl; rewrite Hstep; split.
    + intros [-> | [i Hi]]; [|now exists (S i)].
      exists 0. split; [reflexivity | now rewrite Nat.add_0_r].
    + intros [[|i] [H1 H2]]; [left; now inversion H1 | right; now exists i].
    + intros [i Hi]. now exists (S i).
    + intros [[|i] [H1 H2]]; [|now exists i].
      inversion H1; subst. rewrite Nat.add_0_r in H2. congruence.
Qed.

Lemma findIndex_find {A : Type} (p : A -> bool) (l : list A) :
  forall i, Js.findIndex p l = Some i -> nth_error l i = find p l.
Proof.
  induction l as [|x t IH]; simpl; intros i H; [discriminate|].
  destruct (p x).
  - now inversion H.
  - destruct (Js.findIndex p t) as [j|]; [|discriminate].
    inversion H; subst. simpl. now apply IH.
Qed.

Lemma find_findIndex {A : Type} (p : A -> bool) (l : list A) (x : A) :
  find p l = Some x ->
  exists i, Js.findIndex p l = Some i /\ nth_error l i = Some x.
Proof.
  induction l as [|y t IH]; simpl; intros H; [discriminate|].
  destruct (p y).
  - exists 0. now split.
  - destruct (IH H) as [i [Hi Hn]]. exists (S i). now rewrite Hi.
Qed.

(** A node survives the filter exactly when it is the first node of the
    array with its normalized key. *)
Lemma dedup_In (array : list Node) (n : Node) :
  In n (dedup array) <-> firstWithKey (normalizedKey n) array = Some n.
Proof.
  unfold dedup, Js.filterIndexed, firstWithKey. rewrite filterFrom_In.
  split.
  - intros [i [Hn Hq]]. simpl in Hq.
    destruct (Js.findIndex _ array) as [j|] eqn:Hj; [|discriminate].
    apply Nat.eqb_eq in Hq. subst j.
    now rewrite <- (findIndex_find _ _ _ Hj).
  - intros H. destruct (find_findIndex _ _ _ H) as [i [Hi Hn]].
    exists i. split; [exact Hn|]. simpl. rewrite Hi. apply Nat.eqb_refl.
Qed.

Lemma dedup_incl (array : list Node) (n : Node) :
  In n (dedup array) -> In n array.
Proof.
  intros H. apply dedup_In in H. now apply find_some in H.
Qed.

(** Every normalized key of the array is kept, by its first node. *)
Lemma dedup_keeps_first (array : list Node) (m : Node) :
  In m array ->
  exists n, In n (dedup array)
            /\ normalizedKey n = normalizedKey m
            /\ firstWithKey (normalizedKey m) array = Some n.
Proof.
  intros Hin. unfold firstWithKey.
  destruct (find (fun n => Js.strictEq (normalizedKey n) (normalizedKey m))
              array) as [n|] eqn:Hfind.
  - exists n. pose proof (find_some _ _ Hfind) as [_ Heq].
    apply strictEq_true in Heq. split; [|now split].
    apply dedup_In. unfold firstWithKey. now rewrite Heq.
  - pose proof (find_none _ _ Hfind m Hin) as Hno.
    simpl in Hno. now rewrite strictEq_refl in Hno.
Qed.

Lemma dedup_NoDup_from (array l : list Node) (k : nat) :
  NoDup
    (map normalizedKey
       (Js.filterFrom k
          (fun index o =>
             match Js.findIndex
                     (fun other =>
                        Js.strictEq (normalizedKey other) (normalizedKey o))
                     array with
             | Some found => (found =? index)%nat
             | None => false
             end)
          l)).
Proof.
  revert k. induction l as [|x t IH]; intros k; simpl; [constructor|].
  destruct (Js.findIndex _ array) as [j|] eqn:Hj; [|apply IH].
  destruct (j =? k)%nat eqn:Hjk; [|apply IH].
  apply Nat.eqb_eq in Hjk. subst j. simpl. constructor; [|apply IH].
  intros Hin. apply in_map_iff in Hin as [y [Hy Hin]].
  apply filterFrom_In in Hin as [i [_ Hq]]. simpl in Hq.
  rewrite Hy, Hj in Hq. apply Nat.eqb_eq in Hq. lia.
Qed.

Lemma dedup_NoDup (array : list Node) :
  NoDup (map normalizedKey (dedup array)).
Proof. apply dedup_NoDup_from. Qed.

(** ** The last map *)

Lemma node_attachChildren (array : list Node) :
  map node (attachChildren array) = array.
Proof.
  unfold attachChildren. rewrite map_map. simpl. apply map_id.
Qed.

Lemma attachChildren_In (array : list Node) (t : TreeNode) :
  In t (attachChildren array)
  <-> In (node t) array /\ Children t = childrenOf array (node t).
Proof.
  unfold attachChildren. rewrite in_map_iff. split.
  - intros [n [Ht Hn]]. subst t. now split.
  - intros [Hn Hc]. exists (node t). split; [|exact Hn].
    destruct t as [n c]. simpl in *. now subst c.
Qed.

(** The shape of a successful run of the pipeline. *)
Lemma result_Some (options : Options) (allObjects : list S3.Object)
  (tree : list TreeNode) :
  result options allObjects = Some tree ->
  exists classified,
    classifyAll options allObjects = Some classified
    /\ tree = attachChildren (dedup (merged options classified))
    /\ map node tree = dedup (merged options classified).
Proof.
  unfold result. destruct (classifyAll options allObjects) as [c|];
    [|discriminate].
  intros H. inversion H; subst. exists c.
  repeat split. apply node_attachChildren.
Qed.

(** Every node of the final tree is a classified object of the listing
    or a folder synthesized from one. *)
Lemma tree_node_origin (options : Options) (allObjects : list S3.Object)
  (tree : list TreeNode) (n : Node) :
  result options allObjects = Some tree ->
  In n (map node tree) ->
  (exists o, In o allObjects /\ classify options allObjects o = Some n)
  \/ (exists o r i,
        In o allObjects /\ classify options allObjects o = Some r
        /\ i < LevelsDeep r /\ n = synthesize options r i).
Proof.
  intros Hres Hin.
  destruct (result_Some _ _ _ Hres) as [classified [Hc [_ Hnodes]]].
  rewrite Hnodes in Hin. apply dedup_incl in Hin.
  apply merged_In in Hin as [r [Hr Hcase]].
  apply (mapThrow_In _ _ _ Hc) in Hr as [o [Ho Hcl]].
  destruct Hcase as [-> | [i [Hi ->]]].
  - left. now exists o.
  - right. now exists o, r, i.
Qed.

Lemma sampleTree_result :
  result sampleOptions sampleListing = Some sampleTree.
Proof. reflexivity. Qed.

(** ** Key parsing *)

(** C9: key parsing (split on "/", drop the empty segments) is
    idempotent: joining the parsed segments with "/" and parsing again
    gives the same segments, for every raw key, an undefined one
    included. *)
Theorem key_parsing_idempotent (key : option string) :
  keyPartsOf (Some (Js.join (keyPartsOf key))) = keyPartsOf key.
Proof. apply keyPartsOf_join, keyPartsOf_segments. Qed.

(** ** The classifier *)

Lemma isFolder_iff_strict_prefix (array : list S3.Object) (o : S3.Object)
  (K : string) :
  S3.Key o = Some K ->
  (isFolder array o = true
   <-> exists other K',
         In other array /\ S3.Key other = Some K'
         /\ Js.startsWith K' K = true /\ K' <> K).
Proof.
  intros HK. unfold isFolder. rewrite existsb_exists, HK. split.
  - intros [other [Hin Htest]].
    destruct (S3.Key other) as [K'|] eqn:HK'; [|discriminate].
    apply andb_true_iff in Htest as [Hpre Hneq].
    exists other, K'. repeat split; try assumption.
    intros ->. simpl in Hneq. now rewrite String.eqb_refl in Hneq.
  - intros [other [K' [Hin [HK' [Hpre Hneq]]]]].
    exists other. split; [exact Hin|]. rewrite HK', Hpre. simpl.
    apply negb_true_iff, String.eqb_neq, Hneq.
Qed.

Lemma mapThrow_nth {A B : Type} (f : A -> option B) (l : list A) :
  forall l',
    Js.mapThrow f l = Some l' ->
    List.length l' = List.length l
    /\ forall i x, nth_error l i = Some x ->
                   exists y, nth_error l' i = Some y /\ f x = Some y.
Proof.
  induction l as [|x t IH]; simpl; intros l' H.
  - inversion H; subst. split; [reflexivity|].
    intros [|i] y Hy; discriminate.
  - destruct (f x) as [y0|] eqn:Hfx; [|discriminate].
    destruct (Js.mapThrow f t) as [ys|]; [|discriminate].
    inversion H; subst; clear H.
    destruct (IH ys eq_refl) as [Hlen Hnth].
    split; [simpl; now rewrite Hlen|].
    intros [|i] z Hz; simpl in *.
    + inversion Hz; subst. now exists y0.
    + now apply Hnth.
Qed.

(** C1: when the first map succeeds, it yields one node per listed
    object, in order, and the node of the object with key [K] carries
    that key and is marked as a folder exactly when some object of the
    complete listing has a key [K'] that starts with [K], as a raw
    string, and differs from it; it is marked as a file otherwise.
    Every node of the final tree is such a node, or a synthesized
    folder. *)
Theorem classifier_folder_iff_strict_prefix (options : Options)
  (allObjects : list S3.Object) (classified : list Node) :
  classifyAll options allObjects = Some classified ->
  List.length classified = List.length allObjects
  /\ (forall i o,
        nth_error allObjects i = Some o ->
        exists n K,
          nth_error classified i = Some n
          /\ S3.Key o = Some K
          /\ Key n = Some K
          /\ (IsFolder n = true
              <-> exists other K',
                    In other allObjects /\ S3.Key other = Some K'
                    /\ Js.startsWith K' K = true /\ K' <> K)
          /\ IsFile n = negb (IsFolder n))
  /\ (forall tree t,
        result options allObjects = Some tree ->
        In t tree ->
        In (node t) classified
        \/ (IsFolder (node t) = true /\ IsFile (node t) = false)).
Proof.
  intros Hc. pose proof Hc as Hmap. unfold classifyAll in Hmap.
  destruct (mapThrow_nth _ _ _ Hmap) as [Hlen Hnth].
  split; [exact Hlen|]. split.
  - intros i o Ho. destruct (Hnth i o Ho) as [n [Hn Hcl]].
    pose proof (classify_Some _ _ _ _ Hcl)
      as [Hkey [Hparts [Hne [_ [Hf [Hfile _]]]]]].
    rewrite Hparts in Hne.
    destruct (S3.Key o) as [K|] eqn:HK; [|now elim Hne].
    exists n, K. split; [exact Hn|]. split; [reflexivity|].
    split; [exact Hkey|]. split.
    + rewrite Hf. now apply isFolder_iff_strict_prefix.
    + now rewrite Hfile, Hf.
  - intros tree t Hres Ht.
    destruct (result_Some _ _ _ Hres) as [classified' [Hc' [_ Hnodes]]].
    rewrite Hc in Hc'. inversion Hc'; subst classified'.
    pose proof (in_map node _ _ Ht) as Hn. rewrite Hnodes in Hn.
    apply dedup_incl, merged_In in Hn as [r [Hr [-> | [j [_ ->]]]]].
    + now left.
    + right. now split.
Qed.

(** The listing ["a"; "ab"]: the node of ["a"] is a folder, because
    ["ab"] starts with it, and the node of ["ab"] is a file. *)
Lemma classifier_folder_iff_strict_prefix_witness :
  classifyAll sampleOptions prefixListing = Some [prefixFolder; prefixFile]
  /\ exists n,
       nth_error [prefixFolder; prefixFile] 0 = Some n
       /\ Key n = Some "a"
       /\ IsFolder n = true
       /\ IsFile n = false.
Proof.
  split; [reflexivity|].
  destruct (classifier_folder_iff_strict_prefix sampleOptions prefixListing
              [prefixFolder; prefixFile] eq_refl) as [_ [Hnodes _]].
  destruct (Hnodes 0 (objectWithKey "a") eq_refl)
    as [n [K [Hn [HK [Hkey [Hiff Hfile]]]]]].
  inversion HK; subst K.
  assert (Hfolder : IsFolder n = true).
  { apply Hiff. exists (objectWithKey "ab"), "ab".
    repeat split; [simpl; tauto | discriminate]. }
  exists n. split; [exact Hn|]. split; [exact Hkey|].
  split; [exact Hfolder|]. now rewrite Hfile, Hfolder.
Defined.

Example a_ab_listing :
  option_map (map (fun t => (Key (node t), IsFolder (node t))))
    (result sampleOptions [objectWithKey "a"; objectWithKey "ab"])
  = Some [(Some "a", true); (Some "/", true); (Some "ab", false)].
Proof. reflexivity. Qed.

(** C10: the classification step produces a node only for an object
    whose key has at least one non-empty segment. A key that is
    undefined, empty or made of slashes only has no segments; the file
    name is then undefined and computing the hidden flag throws, which
    aborts the whole reconstruction. *)
Theorem classification_needs_a_segment :
  (forall key,
      keyPartsOf key = []
      <-> key = None \/ exists k, key = Some k /\ onlySlashes k = true)
  /\ (forall key,
        keyPartsOf key = [] <-> Js.lastElement (keyPartsOf key) = None)
  /\ (forall options array o,
        classify options array o = None <-> keyPartsOf (S3.Key o) = [])
  /\ (forall options allObjects,
        result options allObjects = None
        <-> exists o, In o allObjects /\ keyPartsOf (S3.Key o) = []).
Proof.
  split; [exact keyPartsOf_nil_iff|].
  split; [intros key; symmetry; apply lastElement_None|].
  split; [exact classify_None|].
  intros options allObjects. unfold result, classifyAll.
  destruct (Js.mapThrow (classify options allObjects) allObjects) eqn:Hmap.
  - split; [discriminate|]. intros [o [Hin Hnil]].
    assert (Hex : exists x, In x allObjects
                            /\ classify options allObjects x = None).
    { exists o. split; [exact Hin | now apply classify_None]. }
    apply mapThrow_None in Hex. congruence.
  - split; [|reflexivity]. intros _.
    apply mapThrow_None in Hmap as [o [Hin Hnone]].
    exists o. split; [exact Hin | now apply classify_None in Hnone].
Qed.

Example slashes_only_key_throws :
  result sampleOptions [objectWithKey "a/b"; objectWithKey "//"] = None.
Proof. reflexivity. Qed.

(** ** The deduplicated tree *)

(** The duplicate filter, through the stripping function of the program. *)
Lemma first_wins_by_normalizedKey (options : Options)
  (allObjects : list S3.Object) (tree : list TreeNode) :
  result options allObjects = Some tree ->
  exists classified,
    classifyAll options allObjects = Some classified
    /\ NoDup (map (fun t => normalizedKey (node t)) tree)
    /\ (forall t, In t tree ->
          firstWithKey (normalizedKey (node t)) (merged options classified)
          = Some (node t))
    /\ (forall m, In m (merged options classified) ->
          exists t, In t tree
            /\ firstWithKey (normalizedKey m) (merged options classified)
               = Some (node t)).
Proof.
  intros Hres.
  destruct (result_Some _ _ _ Hres) as [classified [Hc [Htree Hnodes]]].
  exists classified. split; [exact Hc|]. split; [|split].
  - rewrite <- (map_map node normalizedKey), Hnodes. apply dedup_NoDup.
  - intros t Ht. apply dedup_In. rewrite <- Hnodes. now apply in_map.
  - intros m Hm.
    destruct (dedup_keeps_first _ _ Hm) as [n [Hn [_ Hfirst]]].
    rewrite <- Hnodes in Hn. apply in_map_iff in Hn as [t [Hnt Ht]].
    exists t. split; [exact Ht | now rewrite Hnt].
Qed.

(** The key and its form with a trailing slash collapse to one node, the
    first of the two. *)
Example trailing_slash_collapses :
  option_map (map (fun t => Key (node t)))
    (result sampleOptions [objectWithKey "a/"; objectWithKey "a/b"])
  = Some [Some "a/"; Some "/"; Some "a/b"].
Proof. reflexivity. Qed.

(** The children, through the stripping function of the program. *)
Lemma children_by_normalized_parent (options : Options)
  (allObjects : list S3.Object) (tree : list TreeNode) (t : TreeNode) :
  result options allObjects = Some tree ->
  In t tree ->
  (Key (node t) = Some "/" ->
   forall m, In m (Children t)
             <-> In m (map node tree) /\ LevelsDeep m = 1)
  /\ (Key (node t) <> Some "/" ->
      forall m, In m (Children t)
                <-> In m (map node tree)
                    /\ removeLeadingTrailingSlashes (Some (ParentKey m))
                       = removeLeadingTrailingSlashes (Key (node t))).
Proof.
  intros Hres Ht.
  destruct (result_Some _ _ _ Hres) as [classified [_ [Htree Hnodes]]].
  rewrite Hnodes. rewrite Htree in Ht.
  apply attachChildren_In in Ht as [_ Hch]. rewrite Hch.
  unfold childrenOf. split; intros Hkey m.
  - rewrite Hkey. simpl. rewrite filter_In, Nat.eqb_eq. reflexivity.
  - destruct (Js.strictEq (Key (node t)) (Some "/")) eqn:Heq.
    + apply strictEq_true in Heq. contradiction.
    + rewrite filter_In, strictEq_true. reflexivity.
Qed.

(** The listing with the single key "docs/readme.md": the root lists
    [docs] only, and [docs] lists the file. *)
Example docs_readme_tree :
  map (fun t => (Key (node t), IsFolder (node t), map Key (Children t)))
    sampleTree
  = [(Some "docs/readme.md", false, []);
     (Some "docs", true, [Some "docs/readme.md"]);
     (Some "/", true, [Some "docs"])].
Proof. reflexivity. Qed.

(** ** URLs *)

Lemma append_assoc (a b c : string) : (a ++ b) ++ c = a ++ (b ++ c).
Proof. induction a as [|x a IH]; simpl; [reflexivity | now rewrite IH]. Qed.

(** C7: the URL of every node of the final tree is fixed by the node's
    folder flag, its key parts and the options, in this order: a folder
    has the root path and the key parts joined by "/", whatever the
    endpoint; another node has endpoint/bucket/parts when an endpoint
    is configured; otherwise the virtual-hosted S3 URL, or the
    path-style one when force-path-style is set. *)
Theorem url_resolution_order (options : Options)
  (allObjects : list S3.Object) (tree : list TreeNode) (t : TreeNode) :
  result options allObjects = Some tree ->
  In t tree ->
  let n := node t in
  let path := Js.join (KeyParts n) in
  (IsFolder n = true -> URL n = Js.join (rootPath options :: KeyParts n))
  /\ (IsFolder n = false ->
      forall e, endpoint options = Some e -> e <> "" ->
                URL n = e ++ "/" ++ bucket options ++ "/" ++ path)
  /\ (IsFolder n = false -> Js.truthyOpt (endpoint options) = false ->
      forcePathStyle options = false ->
      URL n = "https://" ++ bucket options ++ ".s3-" ++ region options
              ++ ".amazonaws.com/" ++ path)
  /\ (IsFolder n = false -> Js.truthyOpt (endpoint options) = false ->
      forcePathStyle options = true ->
      URL n = "https://s3-" ++ region options ++ ".amazonaws.com/"
              ++ bucket options ++ "/" ++ path).
Proof.
  intros Hres Ht n path.
  assert (Hurl : URL n = objectURL options (IsFolder n) (KeyParts n)).
  { destruct (tree_node_origin _ _ _ n Hres (in_map node _ _ Ht))
      as [[o [_ Hcl]] | [o [r [i [_ [_ [_ Hsyn]]]]]]].
    - now apply classify_Some in Hcl.
    - rewrite Hsyn. reflexivity. }
  rewrite Hurl. unfold objectURL, endpointURL, s3URL, folderURL.
  repeat split.
  - now intros ->.
  - intros -> e -> He. apply String.eqb_neq in He.
    unfold Js.truthy. now rewrite He.
  - intros -> Hend ->. unfold Js.truthyOpt in Hend.
    destruct (endpoint options) as [e|]; [rewrite Hend|];
      simpl; now rewrite ?append_assoc.
  - intros -> Hend ->. unfold Js.truthyOpt in Hend.
    destruct (endpoint options) as [e|]; [rewrite Hend|];
      simpl; now rewrite ?append_assoc.
Qed.

Lemma url_resolution_order_witness :
  let t := {| node := sampleFile; Children := [] |} in
  result sampleOptions sampleListing = Some sampleTree
  /\ In t sampleTree
  /\ URL (node t) = "https://site.s3-us-east-1.amazonaws.com/docs/readme.md".
Proof.
  intros t. split; [reflexivity|]. split; [simpl; tauto|].
  apply (url_resolution_order sampleOptions sampleListing sampleTree t);
    [reflexivity | simpl; tauto | reflexivity | reflexivity | reflexivity].
Defined.

Example endpoint_url :
  objectURL
    {| bucket := "site"; region := "us-east-1";
       endpoint := Some "https://minio.local";
       includeHiddenFiles := false; includeSitemap := false; domain := "";
       rootPath := "/"; forcePathStyle := true; output := ".";
       verbose := false |}
    false ["docs"; "readme.md"]
  = "https://minio.local/site/docs/readme.md".
Proof. reflexivity. Qed.

(** ** Start-up guards *)

Lemma normalizeOptions_keeps (options : Options) :
  includeSitemap (normalizeOptions options) = includeSitemap options
  /\ domain (normalizeOptions options) = domain options
  /\ bucket (normalizeOptions options) = bucket options.
Proof.
  unfold normalizeOptions. now destruct (forcesPathStyle options).
Qed.

(** C8: when the sitemap is requested and no domain is configured, the
    run ends with exit code 1, and nothing it did before is a listing
    request or a write under the output path. *)
Theorem sitemap_without_domain_exits_first
  (localeCompare : string -> string -> comparison)
  (compareCodeUnits : string -> string -> comparison) (fuel : nat)
  (send : ListObjectsCommand -> option Response) (cli : Options) :
  includeSitemap cli = true ->
  domain cli = "" ->
  status (run localeCompare compareCodeUnits fuel send cli) = Exit 1
  /\ forallb (fun e => negb (isListingRequest e || writesOutput e))
       (trace (run localeCompare compareCodeUnits fuel send cli)) = true.
Proof.
  intros Hmap Hdom. unfold run.
  destruct (normalizeOptions_keeps cli) as [Hs [Hd _]].
  rewrite Hs, Hd, Hmap, Hdom. simpl.
  split; [reflexivity|].
  destruct (verbose cli), (forcesPathStyle cli); reflexivity.
Qed.

Lemma sitemap_without_domain_exits_first_witness :
  includeSitemap sitemapWithoutDomain = true
  /\ domain sitemapWithoutDomain = ""
  /\ status (run String.compare String.compare 8 sampleService sitemapWithoutDomain) = Exit 1
  /\ forallb (fun e => negb (isListingRequest e || writesOutput e))
       (trace (run String.compare String.compare 8 sampleService sitemapWithoutDomain))
     = true.
Proof.
  split; [reflexivity|]. split; [reflexivity|].
  apply (sitemap_without_domain_exits_first String.compare String.compare 8 sampleService
           sitemapWithoutDomain); reflexivity.
Defined.

(** With a domain the same run lists the bucket and writes its pages. *)
Example sample_run :
  map (fun e => (isListingRequest e, writesOutput e))
    (trace (run String.compare String.compare 8 sampleService sampleOptions))
  = [(true, false); (false, false); (false, true); (false, true);
     (false, true); (false, true); (false, true)]
  /\ status (run String.compare String.compare 8 sampleService sampleOptions) = Finished.
Proof. split; reflexivity. Qed.

(** ** The empty bucket *)

(** C6, the code on the empty listing: the reconstruction yields the
    empty list of nodes, without a root node, and the run of an empty
    bucket writes no index page: it only logs the empty result and copies
    the public folder. *)
Theorem empty_listing_has_no_root :
  (forall options, result options [] = Some [])
  /\ (forall localeCompare options, emitPages localeCompare options [] = [])
  /\ trace (run String.compare String.compare 8 emptyService sampleOptions)
     = [Send {| Bucket := "site"; MaxKeys := 1000; Marker := None |};
        ConsoleLogResult [];
        CopyPublic "."].
Proof. repeat split. Qed.

(** ** The listing of a folder *)

Lemma insertBy_In {A : Type} (cmp : A -> A -> comparison) (x y : A)
  (l : list A) :
  In y (Js.insertBy cmp x l) <-> y = x \/ In y l.
Proof.
  induction l as [|z t IH]; simpl.
  - intuition congruence.
  - destruct (cmp x z); simpl; try rewrite IH; intuition congruence.
Qed.

Lemma sortBy_In {A : Type} (cmp : A -> A -> comparison) (l : list A)
  (y : A) :
  In y (Js.sortBy cmp l) <-> In y l.
Proof.
  induction l as [|x t IH]; simpl; [reflexivity|].
  rewrite insertBy_In, IH. intuition congruence.
Qed.

Lemma children_in_tree (options : Options) (allObjects : list S3.Object)
  (tree : list TreeNode) (t : TreeNode) (c : Node) :
  result options allObjects = Some tree ->
  In t tree -> In c (Children t) -> In c (map node tree).
Proof.
  intros Hres Ht Hc.
  destruct (result_Some _ _ _ Hres) as [classified [_ [Htree Hnodes]]].
  rewrite Hnodes. rewrite Htree in Ht.
  apply attachChildren_In in Ht as [_ Hch]. rewrite Hch in Hc.
  unfold childrenOf in Hc.
  destruct (Js.strictEq (Key (node t)) (Some "/"));
    now apply filter_In in Hc.
Qed.

(** The hidden flag of every node, listed or synthesized, file or
    folder, tells whether its file name starts with a dot. *)
Lemma hidden_flag_of_node (options : Options) (allObjects : list S3.Object)
  (tree : list TreeNode) (n : Node) :
  result options allObjects = Some tree ->
  In n (map node tree) ->
  IsHiddenFile n = Js.startsWith (FileName n) ".".
Proof.
  intros Hres Hin.
  destruct (tree_node_origin _ _ _ n Hres Hin)
    as [[o [_ Hcl]] | [o [r [i [_ [_ [_ Hsyn]]]]]]].
  - now apply classify_Some in Hcl.
  - rewrite Hsyn. reflexivity.
Qed.

(** C5, as the code has it: the listing of a node leaves a child out
    exactly when the child's hidden flag is set and the
    include-hidden-files option is unset. The flag is computed for
    folders as for files (the file name, the last segment of the key,
    starts with a dot), so the rule applies to both. *)
Theorem listing_excludes_flagged_children
  (localeCompare : string -> string -> comparison) (options : Options)
  (allObjects : list S3.Object) (tree : list TreeNode) (t : TreeNode)
  (c : Node) :
  result options allObjects = Some tree ->
  In t tree ->
  In c (Children t) ->
  (~ In c (pageItems localeCompare options t)
   <-> IsHiddenFile c = true /\ includeHiddenFiles options = false)
  /\ IsHiddenFile c = Js.startsWith (FileName c) ".".
Proof.
  intros Hres Ht Hc. split.
  - unfold pageItems, visibleChildren. rewrite sortBy_In, filter_In.
    destruct (IsHiddenFile c), (includeHiddenFiles options); simpl;
      intuition congruence.
  - apply (hidden_flag_of_node options allObjects tree); [exact Hres|].
    now apply (children_in_tree options allObjects tree t).
Qed.

Lemma listing_excludes_flagged_children_witness :
  let t := {| node := sampleRoot; Children := [sampleDocs] |} in
  result sampleOptions sampleListing = Some sampleTree
  /\ In t sampleTree
  /\ In sampleDocs (Children t)
  /\ (~ In sampleDocs (pageItems String.compare sampleOptions t)
      <-> IsHiddenFile sampleDocs = true
          /\ includeHiddenFiles sampleOptions = false).
Proof.
  intros t. split; [reflexivity|]. split; [simpl; tauto|].
  split; [simpl; tauto|].
  apply (listing_excludes_flagged_children String.compare sampleOptions
           sampleListing sampleTree t sampleDocs);
    [reflexivity | simpl; tauto | simpl; tauto].
Defined.

(** C5 as stated fails: in the listing with the single key
    ".git/config" and the option unset, the root has the folder ".git"
    as a child, and the root's listing leaves it out. *)
Lemma hidden_folder_is_left_out :
  exists tree root child,
    result sampleOptions [objectWithKey ".git/config"] = Some tree
    /\ In root tree
    /\ In child (Children root)
    /\ Key child = Some ".git"
    /\ IsFolder child = true
    /\ IsFile child = false
    /\ includeHiddenFiles sampleOptions = false
    /\ ~ In child (pageItems String.compare sampleOptions root).
Proof.
  eexists. eexists. eexists.
  split; [vm_compute; reflexivity|].
  split; [right; right; left; reflexivity|].
  split; [left; reflexivity|].
  repeat split. intros H. exact H.
Qed.

(** ** Stripping slashes *)

Lemma append_nil_r (s : string) : s ++ "" = s.
Proof. induction s as [|c s IH]; simpl; [reflexivity | now rewrite IH]. Qed.

Lemma length_dropLast_cons (s : string) :
  forall c, String.length (Js.dropLast (String c s)) = String.length s.
Proof.
  induction s as [|d rest IH]; intros c; [reflexivity|].
  change (Js.dropLast (String c (String d rest)))
    with (String c (Js.dropLast (String d rest))).
  change (String.length (String c (Js.dropLast (String d rest))))
    with (S (String.length (Js.dropLast (String d rest)))).
  now rewrite IH.
Qed.

Lemma length_dropLast (s : string) :
  String.length (Js.dropLast s) = pred (String.length s).
Proof.
  destruct s as [|c rest]; [reflexivity | apply length_dropLast_cons].
Qed.

Lemma stripTrailingLoop_done (fuel : nat) :
  forall s, String.length s <= fuel ->
            Js.endsWithSlash (stripTrailingLoop fuel s) = false.
Proof.
  induction fuel as [|fuel IH]; intros s Hlen; simpl.
  - destruct s; [reflexivity | simpl in Hlen; lia].
  - destruct (Js.endsWithSlash s) eqn:Hends; [|exact Hends].
    apply IH. rewrite length_dropLast. lia.
Qed.

(** The fuel given to the second loop is enough: the result no longer
    ends with a slash. *)
Lemma stripTrailingSlashes_done (s : string) :
  Js.endsWithSlash (stripTrailingSlashes s) = false.
Proof. now apply stripTrailingLoop_done. Qed.

(** More fuel does not change the result. *)
Lemma stripTrailingLoop_enough (fuel : nat) :
  forall s, String.length s <= fuel ->
            stripTrailingLoop fuel s = stripTrailingSlashes s.
Proof.
  unfold stripTrailingSlashes.
  induction fuel as [|fuel IH]; intros s Hlen.
  - destruct s; [reflexivity | simpl in Hlen; lia].
  - destruct s as [|c rest]; [reflexivity|].
    simpl String.length.
    change (stripTrailingLoop (S fuel) (String c rest))
      with (if Js.endsWithSlash (String c rest)
            then stripTrailingLoop fuel (Js.dropLast (String c rest))
            else String c rest).
    change (stripTrailingLoop (S (String.length rest)) (String c rest))
      with (if Js.endsWithSlash (String c rest)
            then stripTrailingLoop (String.length rest)
                   (Js.dropLast (String c rest))
            else String c rest).
    destruct (Js.endsWithSlash (String c rest)); [|reflexivity].
    assert (Hd : String.length (Js.dropLast (String c rest))
                 = String.length rest)
      by (rewrite length_dropLast; reflexivity).
    rewrite IH by (rewrite Hd; simpl in Hlen; lia).
    now rewrite Hd.
Qed.

Lemma stripTrailing_id (s : string) :
  Js.endsWithSlash s = false -> stripTrailingSlashes s = s.
Proof.
  unfold stripTrailingSlashes. intros H.
  destruct (String.length s); simpl; [reflexivity | now rewrite H].
Qed.

Lemma endsWithSlash_snoc (s : string) :
  Js.endsWithSlash (s ++ "/") = true.
Proof.
  induction s as [|c rest IH]; [reflexivity|].
  simpl. destruct (rest ++ "/") eqn:Hrest; [|exact IH].
  destruct rest; discriminate.
Qed.

Lemma dropLast_snoc (s : string) : Js.dropLast (s ++ "/") = s.
Proof.
  induction s as [|c rest IH]; [reflexivity|].
  simpl. destruct (rest ++ "/") eqn:Hrest.
  - destruct rest; discriminate.
  - now rewrite IH.
Qed.

Lemma length_snoc (s : string) :
  String.length (s ++ "/") = S (String.length s).
Proof. induction s as [|c rest IH]; simpl; [reflexivity | now rewrite IH]. Qed.

Lemma stripTrailing_snoc (s : string) :
  Js.endsWithSlash s = false -> stripTrailingSlashes (s ++ "/") = s.
Proof.
  intros H. unfold stripTrailingSlashes. rewrite length_snoc. simpl.
  rewrite endsWithSlash_snoc, dropLast_snoc.
  now apply stripTrailing_id.
Qed.

Lemma endsWithSlash_append (a b : string) :
  b <> "" -> Js.endsWithSlash (a ++ b) = Js.endsWithSlash b.
Proof.
  intros Hb. induction a as [|c rest IH]; [reflexivity|].
  simpl. destruct (rest ++ b) eqn:Hrest; [|exact IH].
  destruct rest; [simpl in Hrest; contradiction | discriminate].
Qed.

Lemma endsWithSlash_slash_free (s : string) :
  containsSlash s = false -> Js.endsWithSlash s = false.
Proof.
  induction s as [|c rest IH]; [reflexivity|]. simpl. intros H.
  apply orb_false_iff in H as [Hc Hrest].
  destruct rest; [exact Hc | now apply IH].
Qed.

Lemma join_not_empty (x : string) (t : list string) :
  x <> "" -> Js.join (x :: t) <> "".
Proof.
  intros Hx. destruct t as [|y t]; [exact Hx|].
  rewrite join_cons2. destruct x; [now elim Hx | discriminate].
Qed.

Lemma endsWithSlash_join (parts : list string) :
  Forall (fun seg => isSegment seg = true) parts ->
  Js.endsWithSlash (Js.join parts) = false.
Proof.
  induction 1 as [|x t Hx Ht IH]; [reflexivity|].
  apply isSegment_iff in Hx as [Hne Hfree].
  destruct t as [|y t'].
  - now apply endsWithSlash_slash_free.
  - rewrite join_cons2, endsWithSlash_append by discriminate.
    inversion Ht as [|? ? Hy _]; subst.
    apply isSegment_iff in Hy as [Hyne _].
    change (String Js.slash (Js.join (y :: t')))
      with ("/" ++ Js.join (y :: t')).
    rewrite endsWithSlash_append by now apply join_not_empty.
    exact IH.
Qed.

Lemma startsWith_slash (c : ascii) (rest : string) :
  Js.startsWith (String c rest) "/" = Ascii.eqb c Js.slash.
Proof.
  unfold Js.startsWith. cbn -[ascii_dec].
  destruct (ascii_dec "/" c) as [He | Hne].
  - subst c. destruct rest; reflexivity.
  - symmetry. apply Ascii.eqb_neq. intros ->. now apply Hne.
Qed.

Lemma stripLeading_id (s : string) :
  Js.startsWith s "/" = false -> stripLeadingSlashes s = s.
Proof.
  destruct s as [|c rest]; [reflexivity|].
  rewrite startsWith_slash. simpl. now intros ->.
Qed.

Lemma startsWith_join (x : string) (t : list string) :
  isSegment x = true -> Js.startsWith (Js.join (x :: t)) "/" = false.
Proof.
  intros Hx. apply isSegment_iff in Hx as [Hne Hfree].
  destruct x as [|c rest]; [now elim Hne|].
  simpl in Hfree. apply orb_false_iff in Hfree as [Hc _].
  destruct t as [|y t].
  - unfold Js.join. cbn [String.concat]. now rewrite startsWith_slash.
  - rewrite join_cons2. cbn [String.append]. now rewrite startsWith_slash.
Qed.

(** The normalized form of a key made of segments, with or without one
    final slash, is the segments joined. *)
Lemma normalize_join (x : string) (t : list string) (sfx : string) :
  Forall (fun seg => isSegment seg = true) (x :: t) ->
  sfx = "" \/ sfx = "/" ->
  removeLeadingTrailingSlashes (Some (Js.join (x :: t) ++ sfx))
  = Some (Js.join (x :: t)).
Proof.
  intros Hall Hsfx. inversion Hall as [|? ? Hx Ht]; subst.
  pose proof (startsWith_join x t Hx) as Hstart.
  pose proof (endsWithSlash_join _ Hall) as Hend.
  assert (Hne : Js.join (x :: t) <> "").
  { apply join_not_empty. now apply isSegment_iff in Hx. }
  unfold removeLeadingTrailingSlashes, Js.truthy.
  assert (Hne' : Js.join (x :: t) ++ sfx <> "").
  { destruct (Js.join (x :: t)); [now elim Hne | discriminate]. }
  apply String.eqb_neq in Hne'. rewrite Hne'. simpl. f_equal.
  rewrite stripLeading_id.
  - destruct Hsfx as [-> | ->].
    + rewrite append_nil_r. now apply stripTrailing_id.
    + now apply stripTrailing_snoc.
  - destruct (Js.join (x :: t)) as [|c rest]; [now elim Hne|].
    cbn [String.append]. rewrite startsWith_slash in *. exact Hstart.
Qed.

(** ** Tidy keys *)

Lemma split_join_snoc (parts : list string) :
  parts <> [] ->
  Forall (fun seg => containsSlash seg = false) parts ->
  Js.split (Js.join parts ++ "/") = (parts ++ [""])%list.
Proof.
  induction parts as [|x t IH]; intros Hne Hall; [now elim Hne|].
  inversion Hall as [|? ? Hx Ht]; subst.
  destruct t as [|y t'].
  - change (Js.join [x] ++ "/") with (x ++ String Js.slash "").
    now rewrite split_append_slash.
  - rewrite join_cons2, append_assoc.
    change (String Js.slash (Js.join (y :: t')) ++ "/")
      with (String Js.slash (Js.join (y :: t') ++ "/")).
    rewrite split_append_slash by exact Hx.
    rewrite IH; [reflexivity | discriminate | exact Ht].
Qed.

Lemma keyPartsOf_join_suffix (parts : list string) (sfx : string) :
  Forall (fun seg => isSegment seg = true) parts ->
  parts <> [] ->
  sfx = "" \/ sfx = "/" ->
  keyPartsOf (Some (Js.join parts ++ sfx)) = parts.
Proof.
  intros Hall Hne [-> | ->].
  - rewrite append_nil_r. now apply keyPartsOf_join.
  - unfold keyPartsOf.
    rewrite split_join_snoc; [| exact Hne | now apply segments_slash_free].
    rewrite filter_app, filter_segments by exact Hall.
    simpl. apply app_nil_r.
Qed.

Lemma join_cons_char (c : ascii) (p : string) (ps : list string) :
  Js.join (String c p :: ps) = String c (Js.join (p :: ps)).
Proof. destruct ps; reflexivity. Qed.

Lemma isSegment_cons (c : ascii) (p : string) :
  Ascii.eqb c Js.slash = false ->
  containsSlash p = false ->
  isSegment (String c p) = true.
Proof.
  intros Hc Hp. apply isSegment_iff. split; [discriminate|].
  simpl. now rewrite Hc, Hp.
Qed.

(** A non-empty key with no leading and no doubled slash is a sequence
    of segments joined by "/", possibly followed by one slash. *)
Lemma tidy_shape_bounded (bound : nat) :
  forall k,
    String.length k <= bound ->
    k <> "" ->
    Js.startsWith k "/" = false ->
    hasDoubleSlash k = false ->
    exists parts sfx,
      parts <> []
      /\ Forall (fun seg => isSegment seg = true) parts
      /\ (sfx = "" \/ sfx = "/")
      /\ k = Js.join parts ++ sfx.
Proof.
  induction bound as [|bound IH]; intros k Hlen Hne Hstart Hdouble.
  - destruct k; [now elim Hne | simpl in Hlen; lia].
  - destruct k as [|c k']; [now elim Hne|].
    rewrite startsWith_slash in Hstart.
    simpl in Hdouble. rewrite Hstart in Hdouble. simpl in Hdouble.
    simpl in Hlen.
    destruct k' as [|d k''].
    + exists [String c ""], "". repeat split; try discriminate; auto.
      constructor; [|constructor]. now apply isSegment_cons.
    + destruct (Ascii.eqb d Js.slash) eqn:Hd.
      * apply Ascii.eqb_eq in Hd. subst d.
        simpl in Hdouble. apply orb_false_iff in Hdouble as [Hs Hdd].
        destruct k'' as [|e k3].
        -- exists [String c ""], "/". repeat split; try discriminate; auto.
           constructor; [|constructor]. now apply isSegment_cons.
        -- destruct (IH (String e k3)) as [parts [sfx [Hp [Hall [Hsfx Hk]]]]];
             try assumption; try discriminate.
           { simpl in *. lia. }
           exists (String c "" :: parts), sfx.
           split; [discriminate|]. split; [|split; [exact Hsfx|]].
           ++ constructor; [now apply isSegment_cons | exact Hall].
           ++ destruct parts as [|y t]; [now elim Hp|].
              rewrite join_cons2, Hk. reflexivity.
      * destruct (IH (String d k'')) as [parts [sfx [Hp [Hall [Hsfx Hk]]]]];
          try assumption; try discriminate.
        { lia. }
        { now rewrite startsWith_slash. }
        destruct parts as [|p ps]; [now elim Hp|].
        exists (String c p :: ps), sfx.
        split; [discriminate|]. split; [|split; [exact Hsfx|]].
        -- inversion Hall as [|? ? Hpseg Hps]; subst.
           constructor; [|exact Hps].
           apply isSegment_iff in Hpseg as [_ Hfree].
           now apply isSegment_cons.
        -- rewrite join_cons_char, Hk. reflexivity.
Qed.

Lemma tidy_shape (k : string) :
  tidyKey k = true ->
  k <> "" ->
  exists parts sfx,
    parts <> []
    /\ Forall (fun seg => isSegment seg = true) parts
    /\ (sfx = "" \/ sfx = "/")
    /\ k = Js.join parts ++ sfx.
Proof.
  unfold tidyKey. intros Htidy Hne.
  apply andb_true_iff in Htidy as [Hs Hd].
  apply negb_true_iff in Hs, Hd.
  now apply (tidy_shape_bounded (String.length k)).
Qed.

(** What a tidy key parses and normalizes to. *)
Lemma tidy_key_parts (k : string) :
  tidyKey k = true ->
  keyPartsOf (Some k) <> [] ->
  (k = Js.join (keyPartsOf (Some k))
   \/ k = Js.join (keyPartsOf (Some k)) ++ "/")
  /\ removeLeadingTrailingSlashes (Some k)
     = Some (Js.join (keyPartsOf (Some k))).
Proof.
  intros Htidy Hparts.
  assert (Hne : k <> "") by (intros ->; now apply Hparts).
  destruct (tidy_shape k Htidy Hne) as [parts [sfx [Hp [Hall [Hsfx Hk]]]]].
  assert (Hkp : keyPartsOf (Some k) = parts).
  { rewrite Hk. now apply keyPartsOf_join_suffix. }
  rewrite Hkp. split.
  - destruct Hsfx as [-> | ->]; [left | right]; [|exact Hk].
    now rewrite append_nil_r in Hk.
  - rewrite Hk. destruct parts as [|x t]; [now elim Hp|].
    now apply normalize_join.
Qed.

Lemma prefix_append (a b c : string) :
  String.prefix (a ++ b) (a ++ c) = String.prefix b c.
Proof.
  induction a as [|x a IH]; [reflexivity|].
  cbn -[ascii_dec]. destruct (ascii_dec x x) as [_ | Hne];
    [exact IH | now elim Hne].
Qed.

Lemma join_app (q rest : list string) :
  q <> [] -> rest <> [] ->
  Js.join (q ++ rest) = Js.join q ++ String Js.slash (Js.join rest).
Proof.
  intros Hq Hrest. induction q as [|x t IH]; [now elim Hq|].
  destruct t as [|y t'].
  - destruct rest as [|z rest']; [now elim Hrest | reflexivity].
  - change ((x :: y :: t') ++ rest)%list with (x :: y :: (t' ++ rest))%list.
    rewrite !join_cons2.
    change (y :: (t' ++ rest))%list with ((y :: t') ++ rest)%list.
    rewrite IH by discriminate. now rewrite append_assoc.
Qed.

(** A key whose segments extend those of another key starts with that
    key, whether or not either ends with a slash. *)
Lemma startsWith_ancestor_key (p : list string) (i : nat)
  (sfx sfx' : string) :
  0 < i < List.length p ->
  sfx' = "" \/ sfx' = "/" ->
  Js.startsWith (Js.join p ++ sfx) (Js.join (firstn i p) ++ sfx') = true.
Proof.
  intros Hi Hsfx'. unfold Js.startsWith.
  replace (Js.join p) with (Js.join (firstn i p ++ skipn i p))
    by now rewrite firstn_skipn.
  assert (Hq : firstn i p <> []).
  { intros Hnil. apply (f_equal (@List.length string)) in Hnil.
    rewrite length_firstn in Hnil. simpl in Hnil. lia. }
  assert (Hrest : skipn i p <> []).
  { intros Hnil. apply (f_equal (@List.length string)) in Hnil.
    rewrite length_skipn in Hnil. simpl in Hnil. lia. }
  rewrite join_app, append_assoc, prefix_append by assumption.
  destruct Hsfx' as [-> | ->]; [reflexivity|].
  change (String Js.slash (Js.join (skipn i p)) ++ sfx)
    with (String Js.slash (Js.join (skipn i p) ++ sfx)).
  apply (startsWith_slash Js.slash).
Qed.

(** ** Ancestors *)

Lemma isFolder_intro (array : list S3.Object) (o other : S3.Object)
  (K K' : string) :
  In other array ->
  S3.Key o = Some K ->
  S3.Key other = Some K' ->
  Js.startsWith K' K = true ->
  K' <> K ->
  isFolder array o = true.
Proof.
  intros Hin HK HK' Hpre Hneq. unfold isFolder. apply existsb_exists.
  exists other. split; [exact Hin|]. rewrite HK', HK, Hpre. simpl.
  apply negb_true_iff, String.eqb_neq, Hneq.
Qed.

Lemma tidyListing_key (allObjects : list S3.Object) (o : S3.Object)
  (K : string) :
  tidyListing allObjects = true ->
  In o allObjects -> S3.Key o = Some K -> tidyKey K = true.
Proof.
  unfold tidyListing. rewrite forallb_forall. intros Hall Hin HK.
  specialize (Hall o Hin). now rewrite HK in Hall.
Qed.

Lemma Forall_firstn {A : Type} (P : A -> Prop) (i : nat) (l : list A) :
  Forall P l -> Forall P (firstn i l).
Proof.
  intros H. rewrite <- (firstn_skipn i l) in H.
  now apply Forall_app in H.
Qed.

(** A synthesized folder has the first [i] segments of its object, and
    its normalized key is these segments joined. *)
Lemma synthesize_canonical (options : Options) (r : Node) (i : nat) :
  Forall (fun seg => isSegment seg = true) (KeyParts r) ->
  KeyParts (synthesize options r i) = firstn i (KeyParts r)
  /\ normalizedKey (synthesize options r i)
     = Some (Js.join (firstn i (KeyParts r))).
Proof.
  intros Hall. apply (Forall_firstn _ i) in Hall.
  unfold normalizedKey, synthesize. cbn [Key KeyParts].
  destruct (firstn i (KeyParts r)) as [|x t] eqn:Hq.
  - split; reflexivity.
  - assert (Hne : Js.join (x :: t) <> "").
    { apply join_not_empty. inversion Hall as [|? ? Hx _]; subst.
      now apply isSegment_iff in Hx. }
    destruct (Js.join (x :: t)) as [|c rest] eqn:Hj; [now elim Hne|].
    cbn [String.length Nat.eqb]. rewrite <- Hj. split.
    + now apply keyPartsOf_join.
    + rewrite <- (append_nil_r (Js.join (x :: t))) at 1.
      apply normalize_join; [exact Hall | now left].
Qed.

(** A classified object with a tidy key has its segments joined as
    normalized key. *)
Lemma classify_canonical (options : Options) (allObjects : list S3.Object)
  (o : S3.Object) (r : Node) :
  tidyListing allObjects = true ->
  In o allObjects ->
  classify options allObjects o = Some r ->
  exists K,
    S3.Key o = Some K
    /\ tidyKey K = true
    /\ KeyParts r = keyPartsOf (Some K)
    /\ (K = Js.join (KeyParts r) \/ K = Js.join (KeyParts r) ++ "/")
    /\ normalizedKey r = Some (Js.join (KeyParts r)).
Proof.
  intros Htidy Hin Hcl. apply classify_Some in Hcl.
  destruct Hcl as [Hkey [Hparts [Hne _]]].
  destruct (S3.Key o) as [K|] eqn:HK; [|now elim Hne].
  pose proof (tidyListing_key _ _ _ Htidy Hin HK) as HtK.
  rewrite Hparts in Hne.
  destruct (tidy_key_parts K HtK Hne) as [Hshape Hnorm].
  exists K. unfold normalizedKey. rewrite Hkey, Hparts. now repeat split.
Qed.

Lemma merged_canonical (options : Options) (allObjects : list S3.Object)
  (classified : list Node) (m : Node) :
  tidyListing allObjects = true ->
  classifyAll options allObjects = Some classified ->
  In m (merged options classified) ->
  normalizedKey m = Some (Js.join (KeyParts m))
  /\ Forall (fun seg => isSegment seg = true) (KeyParts m)
  /\ LevelsDeep m = List.length (KeyParts m).
Proof.
  intros Htidy Hc Hm. apply merged_In in Hm as [r [Hr Hcase]].
  apply (mapThrow_In _ _ _ Hc) in Hr as [o [Ho Hcl]].
  destruct (classify_canonical _ _ _ _ Htidy Ho Hcl)
    as [K [_ [_ [Hparts [_ Hnorm]]]]].
  assert (Hseg : Forall (fun seg => isSegment seg = true) (KeyParts r)).
  { rewrite Hparts. apply keyPartsOf_segments. }
  destruct Hcase as [-> | [i [_ ->]]].
  - split; [exact Hnorm|]. split; [exact Hseg|].
    now apply classify_Some in Hcl.
  - destruct (synthesize_canonical options r i Hseg) as [Hkp Hnk].
    rewrite Hnk, Hkp. split; [reflexivity|].
    split; [now apply Forall_firstn|].
    rewrite <- Hkp. reflexivity.
Qed.

Lemma filter_none {A : Type} (P : A -> bool) (l : list A) :
  (forall m, In m l -> P m = false) -> filter P l = [].
Proof.
  induction l as [|x t IH]; intros H; [reflexivity|]. simpl.
  rewrite (H x (or_introl eq_refl)). apply IH.
  intros m Hm. apply H. now right.
Qed.

(** In a list without two elements of the same key, a test that only
    elements of one key pass selects exactly one element. *)
Lemma filter_unique {A B : Type} (f : A -> B) (P : A -> bool)
  (l : list A) (g : A) :
  NoDup (map f l) ->
  In g l ->
  P g = true ->
  (forall m, In m l -> P m = true -> f m = f g) ->
  filter P l = [g].
Proof.
  induction l as [|x t IH]; intros Hnd Hin Hg Hsame; [contradiction|].
  simpl in Hnd. inversion Hnd as [|? ? Hx Ht]; subst.
  destruct Hin as [-> | Hin]; simpl.
  - rewrite Hg. f_equal. apply filter_none. intros m Hm.
    destruct (P m) eqn:HPm; [|reflexivity].
    exfalso. apply Hx. rewrite <- (Hsame m (or_intror Hm) HPm).
    now apply in_map.
  - destruct (P x) eqn:HPx.
    + exfalso. apply Hx. rewrite (Hsame x (or_introl eq_refl) HPx).
      now apply in_map.
    + apply IH; try assumption.
      intros m Hm. apply Hsame. now right.
Qed.

(** C3, for tidy listings: when no listed key starts with a slash or
    has two slashes in a row, every file node of depth N in the final
    tree has, for each depth [i] from 1 to N-1, exactly one node in the
    tree whose key parts are the first [i] parts of the file's key, and
    that node is a folder of depth [i], whether or not the listing has
    an object for that prefix. *)
Theorem ancestors_exist_once_for_tidy_keys (options : Options)
  (allObjects : list S3.Object) (tree : list TreeNode) (f : Node)
  (i : nat) :
  tidyListing allObjects = true ->
  result options allObjects = Some tree ->
  In f (map node tree) ->
  IsFile f = true ->
  1 <= i < LevelsDeep f ->
  exists g,
    filter (hasKeyParts (firstn i (KeyParts f))) (map node tree) = [g]
    /\ IsFolder g = true
    /\ LevelsDeep g = i.
Proof.
  intros Htidy Hres Hf Hfile Hi.
  destruct (result_Some _ _ _ Hres) as [classified [Hc [_ Hnodes]]].
  rewrite Hnodes in *.
  pose proof (dedup_incl _ _ Hf) as Hfm.
  pose proof (merged_canonical _ _ _ _ Htidy Hc Hfm) as [_ [Hfseg Hflen]].
  (* the file is a listed object *)
  apply merged_In in Hfm as [r [Hr Hcase]].
  destruct Hcase as [-> | [j [_ ->]]]; [|discriminate Hfile].
  pose proof (proj1 (mapThrow_In _ _ _ Hc r) Hr) as [o [Ho Hcl]].
  destruct (classify_canonical _ _ _ _ Htidy Ho Hcl)
    as [K [HK [_ [HKparts [HKshape _]]]]].
  (* its ancestor of depth i was synthesized, and one node has its key *)
  assert (Hs : In (synthesize options r i) (merged options classified)).
  { apply merged_In. exists r. split; [exact Hr | right].
    exists i. split; [lia | reflexivity]. }
  destruct (synthesize_canonical options r i Hfseg) as [_ Hsk].
  destruct (dedup_keeps_first _ _ Hs) as [g [Hg [Hgk _]]].
  rewrite Hsk in Hgk.
  pose proof (dedup_incl _ _ Hg) as Hgm.
  pose proof (merged_canonical _ _ _ _ Htidy Hc Hgm) as [Hgn [Hgseg Hglen]].
  assert (Hgparts : KeyParts g = firstn i (KeyParts r)).
  { apply join_segments_inj; [exact Hgseg | now apply Forall_firstn|].
    congruence. }
  exists g. split; [|split].
  - apply (filter_unique normalizedKey).
    + apply dedup_NoDup.
    + exact Hg.
    + unfold hasKeyParts.
      now destruct (list_eq_dec string_dec (KeyParts g)
                      (firstn i (KeyParts r))).
    + intros m Hm Hpm. unfold hasKeyParts in Hpm.
      destruct (list_eq_dec string_dec (KeyParts m) (firstn i (KeyParts r)))
        as [Hmp|]; [|discriminate].
      pose proof (merged_canonical _ _ _ _ Htidy Hc (dedup_incl _ _ Hm))
        as [Hmn _].
      rewrite Hmn, Hgk, Hmp. reflexivity.
  - apply merged_In in Hgm as [r' [Hr' Hcase]].
    destruct Hcase as [-> | [j [_ ->]]]; [|reflexivity].
    pose proof (proj1 (mapThrow_In _ _ _ Hc r') Hr') as [o' [Ho' Hcl']].
    destruct (classify_canonical _ _ _ _ Htidy Ho' Hcl')
      as [K' [HK' [_ [HK'parts [HK'shape _]]]]].
    apply classify_Some in Hcl'.
    destruct Hcl' as [_ [_ [_ [_ [Hfolder _]]]]]. rewrite Hfolder.
    apply (isFolder_intro allObjects o' o K' K Ho HK' HK).
    + rewrite Hgparts in HK'shape.
      assert (Hlt : 0 < i < List.length (KeyParts r)) by lia.
      destruct HKshape as [HKs | HKs]; rewrite HKs at 1;
        [rewrite <- (append_nil_r (Js.join (KeyParts r)))|];
        (destruct HK'shape as [-> | ->];
         [rewrite <- (append_nil_r (Js.join (firstn i (KeyParts r))))|];
         apply startsWith_ancestor_key; auto).
    + intros Heq. subst K'.
      rewrite <- HK'parts, Hgparts in HKparts.
      apply (f_equal (@List.length string)) in HKparts.
      rewrite length_firstn in HKparts. lia.
  - rewrite Hglen, Hgparts, length_firstn. lia.
Qed.

Lemma ancestors_exist_once_for_tidy_keys_witness :
  tidyListing sampleListing = true
  /\ result sampleOptions sampleListing = Some sampleTree
  /\ In sampleFile (map node sampleTree)
  /\ IsFile sampleFile = true
  /\ 1 <= 1 < LevelsDeep sampleFile
  /\ exists g,
       filter (hasKeyParts (firstn 1 (KeyParts sampleFile)))
         (map node sampleTree) = [g]
       /\ IsFolder g = true
       /\ LevelsDeep g = 1.
Proof.
  split; [reflexivity|]. split; [reflexivity|].
  split; [simpl; tauto|]. split; [reflexivity|].
  split; [simpl; lia|].
  apply (ancestors_exist_once_for_tidy_keys sampleOptions sampleListing
           sampleTree sampleFile 1);
    [reflexivity | reflexivity | simpl; tauto | reflexivity | simpl; lia].
Defined.

(** C3 as stated fails: in the listing ["/a"; "a/b"] the key "/a" is a
    file (no other key starts with "/a") and comes first with the
    normalized key "a", so the folder synthesized for "a/b" is dropped
    as its duplicate; the file "a/b" of depth 2 is in the tree, and no
    folder of the tree has the key parts ["a"] or the normalized key
    "a". *)
Lemma leading_slash_file_shadows_folder :
  exists tree f,
    result sampleOptions [objectWithKey "/a"; objectWithKey "a/b"] = Some tree
    /\ In f (map node tree)
    /\ IsFile f = true
    /\ LevelsDeep f = 2
    /\ firstn 1 (KeyParts f) = ["a"]
    /\ forall g, In g (map node tree) -> IsFolder g = true ->
                 KeyParts g <> ["a"] /\ normalizedKey g <> Some "a".
Proof.
  eexists. eexists.
  split; [vm_compute; reflexivity|].
  split; [right; right; left; reflexivity|].
  split; [reflexivity|]. split; [reflexivity|]. split; [reflexivity|].
  intros g Hin Hfolder. simpl in Hin.
  destruct Hin as [<- | [<- | [<- | []]]]; try discriminate Hfolder.
  split; discriminate.
Qed.

(** The same happens with a doubled slash. *)
Example doubled_slash_file_shadows_folder :
  option_map (map (fun t => (Key (node t), IsFolder (node t))))
    (result sampleOptions [objectWithKey "a/b"; objectWithKey "a//b/c"])
  = Some [(Some "a/b", false); (Some "a", true); (Some "/", true);
          (Some "a//b/c", false)].
Proof. reflexivity. Qed.

(** * Further properties of the code *)

(** ** removeLeadingTrailingSlashes *)

Lemma onlySlashes_app (a b : string) :
  onlySlashes (a ++ b) = onlySlashes a && onlySlashes b.
Proof.
  induction a as [|c a IH]; simpl; [reflexivity|].
  now rewrite IH, andb_assoc.
Qed.

Lemma stripLeading_decompose (s : string) :
  exists a,
    onlySlashes a = true
    /\ s = a ++ stripLeadingSlashes s
    /\ Js.startsWith (stripLeadingSlashes s) "/" = false.
Proof.
  induction s as [|c rest IH].
  - exists "". repeat split.
  - simpl. destruct (Ascii.eqb c Js.slash) eqn:Hc.
    + destruct IH as [a [Ha [Hs Hstart]]].
      apply Ascii.eqb_eq in Hc. subst c.
      exists (String Js.slash a). split; [exact Ha|].
      split; [simpl; now rewrite <- Hs | exact Hstart].
    + exists "". split; [reflexivity|]. split; [reflexivity|].
      now rewrite startsWith_slash.
Qed.

Lemma dropLast_restore (s : string) :
  Js.endsWithSlash s = true -> s = Js.dropLast s ++ "/".
Proof.
  induction s as [|c rest IH]; [discriminate|].
  destruct rest as [|d rest'].
  - simpl. intros Hc. apply Ascii.eqb_eq in Hc. now subst c.
  - intros Hends.
    change (Js.dropLast (String c (String d rest')))
      with (String c (Js.dropLast (String d rest'))).
    cbn [String.append]. f_equal. now apply IH.
Qed.

Lemma stripTrailingLoop_decompose (fuel : nat) :
  forall s, exists b,
    onlySlashes b = true /\ s = stripTrailingLoop fuel s ++ b.
Proof.
  induction fuel as [|fuel IH]; intros s; simpl.
  - exists "". split; [reflexivity | now rewrite append_nil_r].
  - destruct (Js.endsWithSlash s) eqn:Hends.
    + destruct (IH (Js.dropLast s)) as [b [Hb Hs]].
      exists (b ++ "/"). split.
      * rewrite onlySlashes_app, Hb. reflexivity.
      * rewrite <- append_assoc, <- Hs. now apply dropLast_restore.
    + exists "". split; [reflexivity | now rewrite append_nil_r].
Qed.

Lemma startsWith_slash_append (t b : string) :
  Js.startsWith (t ++ b) "/" = false -> Js.startsWith t "/" = false.
Proof.
  destruct t as [|c t']; [reflexivity|].
  cbn [String.append]. now rewrite !startsWith_slash.
Qed.

Lemma strip_decompose (s : string) :
  exists a r b,
    removeLeadingTrailingSlashes (Some s) = Some r
    /\ s = a ++ r ++ b
    /\ onlySlashes a = true
    /\ onlySlashes b = true
    /\ Js.startsWith r "/" = false
    /\ Js.endsWithSlash r = false.
Proof.
  destruct (stripLeading_decompose s) as [a [Ha [Hs Hstart]]].
  destruct (stripTrailingLoop_decompose
              (String.length (stripLeadingSlashes s))
              (stripLeadingSlashes s)) as [b [Hb Hr]].
  fold (stripTrailingSlashes (stripLeadingSlashes s)) in Hr.
  exists a, (stripTrailingSlashes (stripLeadingSlashes s)), b.
  split.
  - unfold removeLeadingTrailingSlashes, Js.truthy.
    destruct (String.eqb_spec s "") as [-> | Hne]; reflexivity.
  - split; [now rewrite <- Hr|]. split; [exact Ha|]. split; [exact Hb|].
    split; [|apply stripTrailingSlashes_done].
    rewrite Hr in Hstart. now apply startsWith_slash_append in Hstart.
Qed.

(** X1: stripping removes a run of slashes at each end and nothing
    else: the input is slashes, then the result, then slashes, and the
    result neither starts nor ends with a slash. *)
Theorem strip_removes_only_outer_slashes (s : string) :
  exists a r b,
    removeLeadingTrailingSlashes (Some s) = Some r
    /\ s = a ++ r ++ b
    /\ onlySlashes a = true
    /\ onlySlashes b = true
    /\ Js.startsWith r "/" = false
    /\ Js.endsWithSlash r = false.
Proof. exact (strip_decompose s). Qed.

Lemma strip_fixed (r : string) :
  Js.startsWith r "/" = false ->
  Js.endsWithSlash r = false ->
  removeLeadingTrailingSlashes (Some r) = Some r.
Proof.
  intros Hstart Hend. unfold removeLeadingTrailingSlashes.
  destruct (negb (Js.truthy r)); [reflexivity|].
  now rewrite stripLeading_id, stripTrailing_id.
Qed.

(** X2: stripping twice is the same as stripping once, for a defined or
    an undefined string. *)
Theorem strip_idempotent (str : option string) :
  removeLeadingTrailingSlashes (removeLeadingTrailingSlashes str)
  = removeLeadingTrailingSlashes str.
Proof.
  destruct str as [s|]; [|reflexivity].
  destruct (strip_decompose s)
    as [a [r [b [Hr [_ [_ [_ [Hstart Hend]]]]]]]].
  rewrite Hr. now apply strip_fixed.
Qed.

Lemma stripLeading_onlySlashes (s : string) :
  onlySlashes s = true -> stripLeadingSlashes s = "".
Proof.
  induction s as [|c rest IH]; [reflexivity|]. simpl. intros H.
  apply andb_true_iff in H as [Hc Hrest]. rewrite Hc. now apply IH.
Qed.

(** X3: the stripped key is empty exactly for a string made of slashes
    only, the empty string included; the root key "/" is one. *)
Theorem strip_empty_iff_only_slashes (s : string) :
  removeLeadingTrailingSlashes (Some s) = Some "" <-> onlySlashes s = true.
Proof.
  split.
  - intros H.
    destruct (strip_decompose s)
      as [a [r [b [Hr [Hs [Ha [Hb _]]]]]]].
    rewrite Hr in H. inversion H; subst r.
    rewrite Hs, !onlySlashes_app, Ha, Hb. reflexivity.
  - intros H. unfold removeLeadingTrailingSlashes.
    destruct (negb (Js.truthy s)) eqn:Ht.
    + apply negb_true_iff in Ht. unfold Js.truthy in Ht.
      apply negb_false_iff, String.eqb_eq in Ht. now subst s.
    + now rewrite stripLeading_onlySlashes.
Qed.

(** ** Parsing and stripping *)

Lemma split_append_slash_any (s t : string) :
  Js.split (s ++ String Js.slash t) = (Js.split s ++ Js.split t)%list.
Proof.
  induction s as [|c rest IH]; [reflexivity|].
  cbn [String.append Js.split]. rewrite IH.
  destruct (Ascii.eqb c Js.slash); [reflexivity|].
  destruct (Js.split rest) as [|seg segs] eqn:Hsplit; [|reflexivity].
  now elim (split_not_nil rest).
Qed.

Lemma keyPartsOf_slash_concat (s t : string) :
  keyPartsOf (Some (s ++ "/" ++ t))
  = (keyPartsOf (Some s) ++ keyPartsOf (Some t))%list.
Proof.
  unfold keyPartsOf.
  change ("/" ++ t) with (String Js.slash t).
  now rewrite split_append_slash_any, filter_app.
Qed.

(** X4: parsing distributes over a slash: the segments of [s/t] are the
    segments of [s] followed by those of [t], whatever slashes [s] and
    [t] contain. *)
Theorem key_parts_of_slash_concat (s t : string) :
  keyPartsOf (Some (s ++ "/" ++ t))
  = (keyPartsOf (Some s) ++ keyPartsOf (Some t))%list.
Proof. exact (keyPartsOf_slash_concat s t). Qed.

Lemma keyPartsOf_slashes_before (a s : string) :
  onlySlashes a = true -> keyPartsOf (Some (a ++ s)) = keyPartsOf (Some s).
Proof.
  induction a as [|c a IH]; [reflexivity|]. simpl. intros H.
  apply andb_true_iff in H as [Hc Ha]. apply Ascii.eqb_eq in Hc. subst c.
  rewrite <- (IH Ha). reflexivity.
Qed.

Lemma keyPartsOf_slashes_after (s b : string) :
  onlySlashes b = true -> keyPartsOf (Some (s ++ b)) = keyPartsOf (Some s).
Proof.
  destruct b as [|c b]; intros H; [now rewrite append_nil_r|].
  simpl in H. apply andb_true_iff in H as [Hc Hb].
  apply Ascii.eqb_eq in Hc. subst c.
  change (String Js.slash b) with ("/" ++ b).
  rewrite keyPartsOf_slash_concat.
  assert (Hnil : keyPartsOf (Some b) = [])
    by (apply keyPartsOf_nil_iff; right; now exists b).
  rewrite Hnil. apply app_nil_r.
Qed.

Lemma keyPartsOf_strip (key : option string) :
  keyPartsOf (removeLeadingTrailingSlashes key) = keyPartsOf key.
Proof.
  destruct key as [s|]; [|reflexivity].
  destruct (strip_decompose s) as [a [r [b [Hr [Hs [Ha [Hb _]]]]]]].
  rewrite Hr. rewrite Hs.
  rewrite keyPartsOf_slashes_before by exact Ha.
  now rewrite keyPartsOf_slashes_after.
Qed.

(** X5: stripping a key does not change what it parses to: leading and
    trailing slashes carry no segment. *)
Theorem key_parts_ignore_outer_slashes (key : option string) :
  keyPartsOf (removeLeadingTrailingSlashes key) = keyPartsOf key.
Proof. exact (keyPartsOf_strip key). Qed.


(** ** Invariants of the nodes *)

Lemma merged_fields (options : Options) (allObjects : list S3.Object)
  (classified : list Node) (m : Node) :
  classifyAll options allObjects = Some classified ->
  In m (merged options classified) ->
  (exists k, Key m = Some k)
  /\ KeyParts m = keyPartsOf (Key m)
  /\ LevelsDeep m = List.length (KeyParts m)
  /\ IsFile m = negb (IsFolder m)
  /\ ParentKey m = parentKeyOf (KeyParts m)
  /\ FileName m
     = match Js.lastElement (KeyParts m) with Some f => f | None => "" end
  /\ IsHiddenFile m = Js.startsWith (FileName m) ".".
Proof.
  intros Hc Hm. apply merged_In in Hm as [r [Hr Hcase]].
  apply (mapThrow_In _ _ _ Hc) in Hr as [o [Ho Hcl]].
  destruct Hcase as [-> | [i [_ ->]]].
  - apply classify_Some in Hcl.
    destruct Hcl as [Hkey [Hparts [Hne [Hlen [Hf [Hfile [Hlast [Hh [Hp _]]]]]]]]].
    split.
    { rewrite Hkey. destruct (S3.Key o) as [k|]; [now exists k|].
      now elim Hne. }
    rewrite Hkey, Hlast, Hfile, Hf. repeat split; assumption.
  - split; [eexists; reflexivity|]. repeat split.
Qed.

Lemma tree_in_merged (options : Options) (allObjects : list S3.Object)
  (tree : list TreeNode) :
  result options allObjects = Some tree ->
  exists classified,
    classifyAll options allObjects = Some classified
    /\ map node tree = dedup (merged options classified)
    /\ forall n, In n (map node tree) -> In n (merged options classified).
Proof.
  intros Hres.
  destruct (result_Some _ _ _ Hres) as [classified [Hc [_ Hnodes]]].
  exists classified. split; [exact Hc|]. split; [exact Hnodes|].
  intros n Hn. rewrite Hnodes in Hn. now apply dedup_incl.
Qed.

(** X6: every node of the final tree, listed or synthesized, has a
    defined key and fields derived from it alone: the key parts are the
    parsed key, all of them non-empty and free of slashes, the depth is
    their number, the parent key is all parts but the last joined, the
    file name is the last part (empty for the root), the hidden flag
    tells whether the file name starts with a dot, and the node is a
    file exactly when it is not a folder. *)
Theorem tree_nodes_are_consistent (options : Options)
  (allObjects : list S3.Object) (tree : list TreeNode) (t : TreeNode) :
  result options allObjects = Some tree ->
  In t tree ->
  let n := node t in
  (exists k, Key n = Some k)
  /\ KeyParts n = keyPartsOf (Key n)
  /\ Forall (fun seg => isSegment seg = true) (KeyParts n)
  /\ LevelsDeep n = List.length (KeyParts n)
  /\ IsFile n = negb (IsFolder n)
  /\ ParentKey n = Js.join (removelast (KeyParts n))
  /\ FileName n
     = match Js.lastElement (KeyParts n) with Some f => f | None => "" end
  /\ IsHiddenFile n = Js.startsWith (FileName n) ".".
Proof.
  intros Hres Ht n.
  destruct (tree_in_merged _ _ _ Hres) as [classified [Hc [_ Hin]]].
  pose proof (merged_fields _ _ _ n Hc (Hin n (in_map node _ _ Ht)))
    as [Hk [Hparts [Hlen [Hfile [Hparent [Hname Hhidden]]]]]].
  split; [exact Hk|]. split; [exact Hparts|].
  split; [rewrite Hparts; apply keyPartsOf_segments|].
  repeat split; assumption.
Qed.

Lemma tree_nodes_are_consistent_witness :
  let t := {| node := sampleDocs; Children := [sampleFile] |} in
  result sampleOptions sampleListing = Some sampleTree
  /\ In t sampleTree
  /\ LevelsDeep (node t) = List.length (KeyParts (node t))
  /\ IsFile (node t) = negb (IsFolder (node t)).
Proof.
  intros t. split; [reflexivity|]. split; [simpl; tauto|].
  pose proof (tree_nodes_are_consistent sampleOptions sampleListing
                sampleTree t eq_refl) as H.
  split; apply H; simpl; tauto.
Defined.

Lemma lastElement_snoc {A : Type} (l : list A) (x : A) :
  Js.lastElement l = Some x -> l = (removelast l ++ [x])%list.
Proof.
  induction l as [|y t IH]; [discriminate|].
  destruct t as [|z t'].
  - simpl. now intros [= ->].
  - intros H. change (removelast (y :: z :: t'))
      with (y :: removelast (z :: t')).
    simpl. f_equal. now apply IH.
Qed.

Lemma Forall_removelast {A : Type} (P : A -> Prop) (l : list A) :
  Forall P l -> Forall P (removelast l).
Proof.
  intros H. rewrite removelast_firstn_len. now apply Forall_firstn.
Qed.

(** X7: for a node of depth at least 1, the parent key and the file
    name recompose the key: the parent key parses to all key parts but
    the last, the file name is the last part, a real segment, and the
    parent key is empty exactly at depth 1. *)
Theorem parent_and_file_name_recompose (options : Options)
  (allObjects : list S3.Object) (tree : list TreeNode) (t : TreeNode) :
  result options allObjects = Some tree ->
  In t tree ->
  1 <= LevelsDeep (node t) ->
  KeyParts (node t)
  = (keyPartsOf (Some (ParentKey (node t))) ++ [FileName (node t)])%list
  /\ isSegment (FileName (node t)) = true
  /\ (ParentKey (node t) = "" <-> LevelsDeep (node t) = 1).
Proof.
  intros Hres Ht Hdepth.
  destruct (tree_in_merged _ _ _ Hres) as [classified [Hc [_ Hin]]].
  pose proof (merged_fields _ _ _ (node t) Hc
                (Hin _ (in_map node _ _ Ht)))
    as [_ [Hparts [Hlen [_ [Hparent [Hname _]]]]]].
  assert (Hseg : Forall (fun seg => isSegment seg = true) (KeyParts (node t)))
    by (rewrite Hparts; apply keyPartsOf_segments).
  destruct (Js.lastElement (KeyParts (node t))) as [f|] eqn:Hlast.
  2:{ apply lastElement_None in Hlast. rewrite Hlast in Hlen.
      simpl in Hlen. lia. }
  pose proof (lastElement_snoc _ _ Hlast) as Hsnoc.
  pose proof (Forall_removelast _ _ Hseg) as Hinit.
  rewrite Hname, Hparent. unfold parentKeyOf.
  rewrite keyPartsOf_join by exact Hinit.
  split; [exact Hsnoc|]. split.
  - rewrite Hsnoc in Hseg. apply Forall_app in Hseg as [_ Hf].
    now inversion Hf.
  - rewrite Hlen. rewrite Hsnoc at 2. rewrite length_app. simpl.
    destruct (removelast (KeyParts (node t))) as [|x q] eqn:Hq.
    + split; reflexivity.
    + split.
      * intros Hempty. exfalso. revert Hempty. apply join_not_empty.
        inversion Hinit as [|? ? Hx _]; subst. now apply isSegment_iff in Hx.
      * simpl. lia.
Qed.

Lemma parent_and_file_name_recompose_witness :
  let t := {| node := sampleFile; Children := [] |} in
  result sampleOptions sampleListing = Some sampleTree
  /\ In t sampleTree
  /\ 1 <= LevelsDeep (node t)
  /\ KeyParts (node t)
     = (keyPartsOf (Some (ParentKey (node t))) ++ [FileName (node t)])%list.
Proof.
  intros t. split; [reflexivity|]. split; [simpl; tauto|].
  split; [simpl; lia|].
  apply (parent_and_file_name_recompose sampleOptions sampleListing
           sampleTree t); [reflexivity | simpl; tauto | simpl; lia].
Defined.

Lemma merged_same_key (options : Options)
  (allObjects : list S3.Object) (classified : list Node) (m1 m2 : Node) :
  classifyAll options allObjects = Some classified ->
  In m1 (merged options classified) ->
  In m2 (merged options classified) ->
  normalizedKey m1 = normalizedKey m2 ->
  KeyParts m1 = KeyParts m2
  /\ LevelsDeep m1 = LevelsDeep m2
  /\ ParentKey m1 = ParentKey m2
  /\ FileName m1 = FileName m2
  /\ IsHiddenFile m1 = IsHiddenFile m2.
Proof.
  intros Hc H1 H2 Hkey.
  pose proof (merged_fields _ _ _ m1 Hc H1)
    as [_ [Hp1 [Hl1 [_ [Hpk1 [Hf1 Hh1]]]]]].
  pose proof (merged_fields _ _ _ m2 Hc H2)
    as [_ [Hp2 [Hl2 [_ [Hpk2 [Hf2 Hh2]]]]]].
  assert (Hparts : KeyParts m1 = KeyParts m2).
  { rewrite Hp1, Hp2, <- (keyPartsOf_strip (Key m1)),
      <- (keyPartsOf_strip (Key m2)).
    unfold normalizedKey in Hkey. now rewrite Hkey. }
  assert (Hname : FileName m1 = FileName m2)
    by now rewrite Hf1, Hf2, Hparts.
  repeat split; try congruence.
Qed.

(** X8: two nodes of the merged sequence with the same stripped key
    have the same key parts, depth, parent key, file name and hidden
    flag: the node kept by the duplicate filter differs from a node it
    replaces at most in the raw key, the folder flag and the URL. *)
Theorem duplicates_share_derived_fields (options : Options)
  (allObjects : list S3.Object) (classified : list Node) (m1 m2 : Node) :
  classifyAll options allObjects = Some classified ->
  In m1 (merged options classified) ->
  In m2 (merged options classified) ->
  normalizedKey m1 = normalizedKey m2 ->
  KeyParts m1 = KeyParts m2
  /\ LevelsDeep m1 = LevelsDeep m2
  /\ ParentKey m1 = ParentKey m2
  /\ FileName m1 = FileName m2
  /\ IsHiddenFile m1 = IsHiddenFile m2.
Proof. apply merged_same_key. Qed.

Lemma duplicates_share_derived_fields_witness :
  exists classified m1 m2,
    classifyAll sampleOptions [objectWithKey "/a"; objectWithKey "a/b"]
    = Some classified
    /\ In m1 (merged sampleOptions classified)
    /\ In m2 (merged sampleOptions classified)
    /\ normalizedKey m1 = normalizedKey m2
    /\ IsFolder m1 = false
    /\ IsFolder m2 = true
    /\ KeyParts m1 = KeyParts m2.
Proof.
  eexists. eexists. eexists.
  split; [vm_compute; reflexivity|].
  split; [left; reflexivity|].
  split; [right; right; right; left; reflexivity|].
  split; [reflexivity|]. split; [reflexivity|]. split; [reflexivity|].
  eapply (duplicates_share_derived_fields sampleOptions
            [objectWithKey "/a"; objectWithKey "a/b"]);
    [vm_compute; reflexivity | left; reflexivity
     | right; right; right; left; reflexivity | reflexivity].
Defined.

(** ** The root and the parent of a node *)

Lemma NoDup_map_eq {A B : Type} (f : A -> B) (l : list A) (a b : A) :
  NoDup (map f l) -> In a l -> In b l -> f a = f b -> a = b.
Proof.
  induction l as [|x t IH]; intros Hnd Ha Hb Hf; [contradiction|].
  simpl in Hnd. inversion Hnd as [|? ? Hx Ht]; subst.
  destruct Ha as [-> | Ha], Hb as [-> | Hb].
  - reflexivity.
  - exfalso. apply Hx. rewrite Hf. now apply in_map.
  - exfalso. apply Hx. rewrite <- Hf. now apply in_map.
  - now apply IH.
Qed.

(** Every merged node has the first segments of a listed object. *)
Lemma merged_prefix_of_listed (options : Options)
  (allObjects : list S3.Object) (classified : list Node) (m : Node) :
  classifyAll options allObjects = Some classified ->
  In m (merged options classified) ->
  exists o r i,
    In o allObjects
    /\ classify options allObjects o = Some r
    /\ In r classified
    /\ i <= LevelsDeep r
    /\ LevelsDeep r = List.length (KeyParts r)
    /\ KeyParts r <> []
    /\ Forall (fun seg => isSegment seg = true) (KeyParts r)
    /\ KeyParts m = firstn i (KeyParts r)
    /\ (m = r \/ (i < LevelsDeep r /\ m = synthesize options r i)).
Proof.
  intros Hc Hm. apply merged_In in Hm as [r [Hr Hcase]].
  pose proof (proj1 (mapThrow_In _ _ _ Hc r) Hr) as [o [Ho Hcl]].
  pose proof (classify_Some _ _ _ _ Hcl) as [_ [Hparts [Hne [Hlen _]]]].
  assert (Hseg : Forall (fun seg => isSegment seg = true) (KeyParts r))
    by (rewrite Hparts; apply keyPartsOf_segments).
  destruct Hcase as [-> | [i [Hi ->]]].
  - exists o, r, (LevelsDeep r). repeat split; try assumption; try lia.
    + rewrite Hlen. symmetry. apply firstn_all.
    + now left.
  - exists o, r, i. repeat split; try assumption; try lia.
    + now apply synthesize_canonical.
    + right. now split.
Qed.

Lemma synthesize_root (options : Options) (r : Node) (i : nat) :
  Js.join (firstn i (KeyParts r)) = "" ->
  synthesize options r i = rootNode options.
Proof. intros H. unfold synthesize. rewrite H. reflexivity. Qed.

(** A merged node without key parts, or with an empty stripped key, is
    the root node. *)
Lemma merged_root (options : Options) (allObjects : list S3.Object)
  (classified : list Node) (m : Node) :
  classifyAll options allObjects = Some classified ->
  In m (merged options classified) ->
  KeyParts m = [] \/ normalizedKey m = Some "" ->
  m = rootNode options.
Proof.
  intros Hc Hm Hcase.
  assert (Hparts : KeyParts m = []).
  { destruct Hcase as [H | H]; [exact H|].
    pose proof (merged_fields _ _ _ m Hc Hm) as [[k Hk] [Hp _]].
    rewrite Hp, <- keyPartsOf_strip. unfold normalizedKey in H.
    now rewrite H. }
  destruct (merged_prefix_of_listed _ _ _ m Hc Hm)
    as [o [r [i [_ [_ [_ [_ [_ [Hne [_ [Hpre Hm']]]]]]]]]]].
  destruct Hm' as [-> | [_ ->]]; [contradiction|].
  apply synthesize_root. rewrite <- Hpre, Hparts. reflexivity.
Qed.

Lemma root_in_dedup (options : Options) (allObjects : list S3.Object)
  (classified : list Node) (m : Node) :
  classifyAll options allObjects = Some classified ->
  In m (merged options classified) ->
  In (rootNode options) (dedup (merged options classified)).
Proof.
  intros Hc Hm.
  destruct (merged_prefix_of_listed _ _ _ m Hc Hm)
    as [o [r [i [_ [_ [Hr [_ [Hlen [Hne _]]]]]]]]].
  assert (Hroot : In (rootNode options) (merged options classified)).
  { apply merged_In. exists r. split; [exact Hr | right]. exists 0.
    split; [|symmetry; now apply synthesize_root].
    destruct (KeyParts r); [now elim Hne | simpl in Hlen; lia]. }
  destruct (dedup_keeps_first _ _ Hroot) as [g [Hg [Hgk _]]].
  rewrite (merged_root _ _ _ g Hc (dedup_incl _ _ Hg)) in Hg;
    [exact Hg | right; exact Hgk].
Qed.

Lemma root_is_in_tree (options : Options) (allObjects : list S3.Object)
  (tree : list TreeNode) :
  result options allObjects = Some tree ->
  allObjects <> [] ->
  In (rootNode options) (map node tree).
Proof.
  intros Hres Hne.
  destruct (tree_in_merged _ _ _ Hres) as [classified [Hc [Hnodes _]]].
  destruct allObjects as [|o rest]; [now elim Hne|].
  assert (Hr : exists r, In r classified).
  { unfold classifyAll in Hc. simpl in Hc.
    destruct (classify options (o :: rest) o) as [r|]; [|discriminate].
    destruct (Js.mapThrow _ rest); [|discriminate].
    inversion Hc. exists r. now left. }
  destruct Hr as [r Hr]. rewrite Hnodes.
  apply (root_in_dedup _ _ _ r Hc).
  apply merged_In. exists r. split; [exact Hr | now left].
Qed.

(** X9: when the listing is not empty and the reconstruction succeeds,
    the final tree has exactly one node of depth 0, and it is the root:
    key "/", no key parts, a folder, not hidden, with the root path as
    its URL. *)
Theorem root_is_the_only_node_of_depth_0 (options : Options)
  (allObjects : list S3.Object) (tree : list TreeNode) :
  result options allObjects = Some tree ->
  allObjects <> [] ->
  filter (fun n => (LevelsDeep n =? 0)%nat) (map node tree)
  = [rootNode options].
Proof.
  intros Hres Hne.
  destruct (tree_in_merged _ _ _ Hres) as [classified [Hc [Hnodes Hin]]].
  destruct allObjects as [|o rest]; [now elim Hne|].
  assert (Hr : exists r, In r classified).
  { unfold classifyAll in Hc. simpl in Hc.
    destruct (classify options (o :: rest) o) as [r|]; [|discriminate].
    destruct (Js.mapThrow _ rest); [|discriminate].
    inversion Hc. exists r. now left. }
  destruct Hr as [r Hr].
  assert (Hm : In r (merged options classified)).
  { apply merged_In. exists r. split; [exact Hr | now left]. }
  rewrite Hnodes. apply (filter_unique normalizedKey).
  - apply dedup_NoDup.
  - exact (root_in_dedup _ _ _ r Hc Hm).
  - reflexivity.
  - intros m Hmd Hdepth. apply Nat.eqb_eq in Hdepth.
    rewrite (merged_root _ _ _ m Hc (dedup_incl _ _ Hmd)); [reflexivity|].
    left. pose proof (merged_fields _ _ _ m Hc (dedup_incl _ _ Hmd))
      as [_ [_ [Hlen _]]].
    rewrite Hdepth in Hlen. now destruct (KeyParts m).
Qed.

Lemma root_is_the_only_node_of_depth_0_witness :
  result sampleOptions sampleListing = Some sampleTree
  /\ sampleListing <> []
  /\ filter (fun n => (LevelsDeep n =? 0)%nat) (map node sampleTree)
     = [rootNode sampleOptions].
Proof.
  split; [reflexivity|]. split; [discriminate|].
  apply (root_is_the_only_node_of_depth_0 sampleOptions sampleListing
           sampleTree); [reflexivity | discriminate].
Defined.

Lemma strip_join_segments (q : list string) :
  Forall (fun seg => isSegment seg = true) q ->
  removeLeadingTrailingSlashes (Some (Js.join q)) = Some (Js.join q).
Proof.
  intros Hq. destruct q as [|x t]; [reflexivity|].
  rewrite <- (append_nil_r (Js.join (x :: t))) at 1.
  apply normalize_join; [exact Hq | now left].
Qed.

Lemma treeNode_eq (array : list Node) (t t' : TreeNode) :
  In t (attachChildren array) ->
  In t' (attachChildren array) ->
  node t' = node t -> t' = t.
Proof.
  intros Ht Ht' Hnode.
  apply attachChildren_In in Ht as [_ Hc], Ht' as [_ Hc'].
  destruct t as [n c], t' as [n' c']. simpl in *. subst. reflexivity.
Qed.

(** The node under which a node of depth at least 1 is listed. *)
Lemma parent_exists (options : Options) (allObjects : list S3.Object)
  (classified : list Node) (n : Node) :
  classifyAll options allObjects = Some classified ->
  In n (merged options classified) ->
  1 <= LevelsDeep n ->
  exists g,
    In g (dedup (merged options classified))
    /\ normalizedKey g = Some (ParentKey n)
    /\ removeLeadingTrailingSlashes (Some (ParentKey n))
       = Some (ParentKey n)
    /\ (ParentKey n = "" <-> LevelsDeep n = 1)
    /\ (ParentKey n = "" <-> g = rootNode options).
Proof.
  intros Hc Hn Hdepth.
  pose proof (merged_fields _ _ _ n Hc Hn)
    as [_ [_ [Hlen [_ [Hparent _]]]]].
  destruct (merged_prefix_of_listed _ _ _ n Hc Hn)
    as [o [r [i [_ [_ [Hr [Hi [Hrlen [_ [Hseg [Hpre _]]]]]]]]]]].
  assert (Hnlen : List.length (KeyParts n) = i)
    by (rewrite Hpre, length_firstn; lia).
  assert (Hq : removelast (KeyParts n) = firstn (pred i) (KeyParts r)).
  { rewrite removelast_firstn_len, Hnlen, Hpre, firstn_firstn.
    f_equal. lia. }
  assert (Hs : In (synthesize options r (pred i))
                 (merged options classified)).
  { apply merged_In. exists r. split; [exact Hr | right].
    exists (pred i). split; [lia | reflexivity]. }
  destruct (synthesize_canonical options r (pred i) Hseg) as [_ Hsk].
  destruct (dedup_keeps_first _ _ Hs) as [g [Hg [Hgk _]]].
  rewrite Hsk, <- Hq in Hgk. fold (parentKeyOf (KeyParts n)) in Hgk.
  rewrite <- Hparent in Hgk.
  assert (Hqseg : Forall (fun seg => isSegment seg = true)
                    (removelast (KeyParts n))).
  { rewrite Hq. now apply Forall_firstn. }
  assert (Hdepth1 : ParentKey n = "" <-> LevelsDeep n = 1).
  { rewrite Hparent, Hlen. unfold parentKeyOf.
    destruct (KeyParts n) as [|x [|y t]] eqn:Hparts.
    - simpl in Hlen. lia.
    - split; reflexivity.
    - split; [|simpl; lia]. intros Hempty. exfalso. revert Hempty.
      change (removelast (x :: y :: t)) with (x :: removelast (y :: t)).
      apply join_not_empty.
      change (removelast (x :: y :: t)) with (x :: removelast (y :: t))
        in Hqseg.
      inversion Hqseg as [|? ? Hx _]; subst. now apply isSegment_iff in Hx. }
  exists g. split; [exact Hg|]. split; [exact Hgk|].
  split; [rewrite Hparent; now apply strip_join_segments|].
  split; [exact Hdepth1|]. split.
  - intros Hempty. apply (merged_root _ _ _ g Hc (dedup_incl _ _ Hg)).
    right. now rewrite Hgk, Hempty.
  - intros ->.
    change (normalizedKey (rootNode options)) with (Some "") in Hgk.
    now inversion Hgk.
Qed.

Lemma one_parent (options : Options)
  (allObjects : list S3.Object) (tree : list TreeNode) (n : Node) :
  result options allObjects = Some tree ->
  In n (map node tree) ->
  1 <= LevelsDeep n ->
  exists t,
    In t tree
    /\ In n (Children t)
    /\ normalizedKey (node t) = Some (ParentKey n)
    /\ forall t', In t' tree -> In n (Children t') -> t' = t.
Proof.
  intros Hres Hn Hdepth.
  destruct (result_Some _ _ _ Hres) as [classified [Hc [Htree Hnodes]]].
  rewrite Hnodes in Hn.
  destruct (parent_exists _ _ _ n Hc (dedup_incl _ _ Hn) Hdepth)
    as [g [Hg [Hgk [Hstrip [Hdepth1 Hroot]]]]].
  set (array := dedup (merged options classified)) in *.
  exists {| node := g; Children := childrenOf array g |}.
  assert (Hchild : forall t', In t' tree -> In n (Children t') ->
                              node t' = g).
  { intros t' Ht' Hin. rewrite Htree in Ht'.
    apply attachChildren_In in Ht' as [Hnode Hch]. rewrite Hch in Hin.
    apply (NoDup_map_eq normalizedKey array);
      [apply dedup_NoDup | exact Hnode | exact Hg|].
    rewrite Hgk. unfold childrenOf in Hin.
    destruct (Js.strictEq (Key (node t')) (Some "/")) eqn:Hkey.
    - apply strictEq_true in Hkey.
      apply filter_In in Hin as [_ Hone]. apply Nat.eqb_eq in Hone.
      apply Hdepth1 in Hone. rewrite Hone.
      unfold normalizedKey. now rewrite Hkey.
    - apply filter_In in Hin as [_ Heq]. apply strictEq_true in Heq.
      unfold normalizedKey. now rewrite <- Heq. }
  split; [|split; [|split]].
  - rewrite Htree. apply attachChildren_In. now split.
  - simpl. unfold childrenOf.
    destruct (Js.strictEq (Key g) (Some "/")) eqn:Hkey.
    + apply filter_In. split; [exact Hn|]. apply Nat.eqb_eq.
      apply Hdepth1, Hroot.
      apply (merged_root _ _ _ g Hc (dedup_incl _ _ Hg)). right.
      apply strictEq_true in Hkey. unfold normalizedKey.
      now rewrite Hkey.
    + apply filter_In. split; [exact Hn|]. apply strictEq_true.
      now rewrite Hstrip.
  - exact Hgk.
  - intros t' Ht' Hin. apply (treeNode_eq array).
    + apply attachChildren_In. now split.
    + now rewrite <- Htree.
    + now apply Hchild.
Qed.

(** X10: every node of the final tree of depth at least 1 is a child of
    exactly one node of the tree: the root when its depth is 1,
    otherwise the node whose stripped key is its parent key. *)
Theorem every_node_has_one_parent (options : Options)
  (allObjects : list S3.Object) (tree : list TreeNode) (n : Node) :
  result options allObjects = Some tree ->
  In n (map node tree) ->
  1 <= LevelsDeep n ->
  exists t,
    In t tree
    /\ In n (Children t)
    /\ normalizedKey (node t) = Some (ParentKey n)
    /\ forall t', In t' tree -> In n (Children t') -> t' = t.
Proof. apply one_parent. Qed.

Lemma every_node_has_one_parent_witness :
  result sampleOptions sampleListing = Some sampleTree
  /\ In sampleFile (map node sampleTree)
  /\ 1 <= LevelsDeep sampleFile
  /\ exists t,
       In t sampleTree
       /\ In sampleFile (Children t)
       /\ normalizedKey (node t) = Some (ParentKey sampleFile)
       /\ forall t', In t' sampleTree -> In sampleFile (Children t') ->
                     t' = t.
Proof.
  split; [reflexivity|]. split; [simpl; tauto|]. split; [simpl; lia|].
  apply (every_node_has_one_parent sampleOptions sampleListing sampleTree
           sampleFile); [reflexivity | simpl; tauto | simpl; lia].
Defined.

(** X11: in a listing whose keys have no leading and no doubled slash,
    a file node of the final tree has no children: only folders list
    anything. *)
Theorem file_nodes_are_leaves_for_tidy_keys (options : Options)
  (allObjects : list S3.Object) (tree : list TreeNode) (t : TreeNode) :
  tidyListing allObjects = true ->
  result options allObjects = Some tree ->
  In t tree ->
  IsFile (node t) = true ->
  Children t = [].
Proof.
  intros Htidy Hres Ht Hfile.
  destruct (result_Some _ _ _ Hres) as [classified [Hc [Htree _]]].
  rewrite Htree in Ht. apply attachChildren_In in Ht as [Hnode Hch].
  rewrite Hch. clear Hch.
  pose proof (dedup_incl _ _ Hnode) as Hf.
  apply merged_In in Hf as [r [Hr Hcase]].
  destruct Hcase as [Heq | [j [_ Heq]]];
    [|rewrite Heq in Hfile; discriminate Hfile].
  rewrite Heq in *. clear Heq.
  pose proof (proj1 (mapThrow_In _ _ _ Hc r) Hr) as [o [Ho Hcl]].
  destruct (classify_canonical _ _ _ _ Htidy Ho Hcl)
    as [K [HK [_ [HKparts [HKshape Hrk]]]]].
  pose proof (classify_Some _ _ _ _ Hcl)
    as [Hkey [_ [Hne [_ [_ [Hisfile _]]]]]].
  assert (Hseg : Forall (fun seg => isSegment seg = true) (KeyParts r))
    by (rewrite HKparts; apply keyPartsOf_segments).
  unfold childrenOf.
  destruct (Js.strictEq (Key r) (Some "/")) eqn:Hroot.
  { apply strictEq_true in Hroot. rewrite Hkey, HK in Hroot.
    inversion Hroot; subst K. now elim Hne. }
  apply filter_none. intros m Hm.
  apply not_true_is_false. intros Htest.
  apply strictEq_true in Htest. fold (normalizedKey r) in Htest.
  rewrite Hrk in Htest.
  pose proof (dedup_incl _ _ Hm) as Hmm.
  pose proof (merged_fields _ _ _ m Hc Hmm) as [_ [_ [_ [_ [Hparent _]]]]].
  destruct (merged_prefix_of_listed _ _ _ m Hc Hmm)
    as [o' [r' [i [Ho' [Hcl' [_ [Hi [Hlen' [_ [Hseg' [Hpre _]]]]]]]]]]].
  assert (Hmlen : List.length (KeyParts m) = i)
    by (rewrite Hpre, length_firstn; lia).
  assert (Hq : removelast (KeyParts m) = firstn (pred i) (KeyParts r')).
  { rewrite removelast_firstn_len, Hmlen, Hpre, firstn_firstn.
    f_equal. lia. }
  rewrite Hparent in Htest. unfold parentKeyOf in Htest.
  rewrite Hq in Htest.
  rewrite strip_join_segments in Htest by now apply Forall_firstn.
  assert (Hp : firstn (pred i) (KeyParts r') = KeyParts r).
  { apply join_segments_inj; [now apply Forall_firstn | exact Hseg|].
    now inversion Htest. }
  assert (Hpos : 0 < pred i < List.length (KeyParts r')).
  { assert (Hl : List.length (KeyParts r) <> 0)
      by (destruct (KeyParts r); [now elim Hne | discriminate]).
    rewrite <- Hp, length_firstn in Hl. lia. }
  destruct (classify_canonical _ _ _ _ Htidy Ho' Hcl')
    as [K' [HK' [_ [HK'parts [HK'shape _]]]]].
  assert (Hfolder : isFolder allObjects o = true).
  { apply (isFolder_intro allObjects o o' K K' Ho' HK HK').
    - rewrite <- Hp in HKshape.
      destruct HK'shape as [HKs | HKs]; rewrite HKs at 1;
        [rewrite <- (append_nil_r (Js.join (KeyParts r')))|];
        (destruct HKshape as [-> | ->];
         [rewrite <- (append_nil_r
                        (Js.join (firstn (pred i) (KeyParts r'))))|];
         apply startsWith_ancestor_key; auto).
    - intros Heq. subst K'.
      rewrite <- HKparts, <- Hp in HK'parts.
      apply (f_equal (@List.length string)) in HK'parts.
      rewrite length_firstn in HK'parts. lia. }
  rewrite Hisfile, Hfolder in Hfile. discriminate Hfile.
Qed.

Lemma file_nodes_are_leaves_for_tidy_keys_witness :
  let t := {| node := sampleFile; Children := [] |} in
  tidyListing sampleListing = true
  /\ result sampleOptions sampleListing = Some sampleTree
  /\ In t sampleTree
  /\ IsFile (node t) = true
  /\ Children t = [].
Proof.
  intros t. split; [reflexivity|]. split; [reflexivity|].
  split; [simpl; tauto|]. split; [reflexivity|].
  apply (file_nodes_are_leaves_for_tidy_keys sampleOptions sampleListing
           sampleTree t); [reflexivity | reflexivity | simpl; tauto
                           | reflexivity].
Defined.

(** Without that precondition a file can have children: the file "/a"
    lists "a/b". *)
Example untidy_file_with_child :
  option_map
    (map (fun t => (Key (node t), IsFile (node t), map Key (Children t))))
    (result sampleOptions [objectWithKey "/a"; objectWithKey "a/b"])
  = Some [(Some "/a", true, [Some "a/b"]);
          (Some "/", false, [Some "/a"]);
          (Some "a/b", true, [])].
Proof. reflexivity. Qed.

(** ** The duplicate filter, again *)

Lemma findIndex_skip {A : Type} (p : A -> bool) (pre l : list A) :
  (forall y, In y pre -> p y = false) ->
  Js.findIndex p (pre ++ l)
  = option_map (Nat.add (List.length pre)) (Js.findIndex p l).
Proof.
  induction pre as [|x pre IH]; intros Hpre; simpl.
  - now destruct (Js.findIndex p l).
  - rewrite (Hpre x (or_introl eq_refl)), IH.
    + now destruct (Js.findIndex p l).
    + intros y Hy. apply Hpre. now right.
Qed.

Lemma filterFrom_all {A : Type} (q : nat -> A -> bool) (l : list A) :
  forall k,
    (forall i x, nth_error l i = Some x -> q (k + i) x = true) ->
    Js.filterFrom k q l = l.
Proof.
  induction l as [|x t IH]; intros k Hall; [reflexivity|]. simpl.
  pose proof (Hall 0 x eq_refl) as Hx. rewrite Nat.add_0_r in Hx.
  rewrite Hx. f_equal. apply IH. intros i y Hy.
  replace (S k + i) with (k + S i) by lia. now apply Hall.
Qed.

Lemma dedup_fixed (array : list Node) :
  NoDup (map normalizedKey array) -> dedup array = array.
Proof.
  intros Hnd. unfold dedup, Js.filterIndexed. apply filterFrom_all.
  intros i x Hx. simpl.
  destruct (nth_error_split _ _ Hx) as [pre [post [Harr Hlen]]].
  assert (Hskip : forall y, In y pre ->
            Js.strictEq (normalizedKey y) (normalizedKey x) = false).
  { intros y Hy. destruct (Js.strictEq _ _) eqn:Heq; [|reflexivity].
    apply strictEq_true in Heq. exfalso.
    rewrite Harr, map_app in Hnd. simpl in Hnd.
    apply NoDup_remove_2 in Hnd. apply Hnd, in_or_app. left.
    rewrite <- Heq. now apply in_map. }
  rewrite Harr at 1. rewrite findIndex_skip by exact Hskip. simpl.
  rewrite strictEq_refl. simpl. rewrite Hlen, Nat.add_0_r.
  apply Nat.eqb_refl.
Qed.

(** X12: filtering duplicates twice is the same as filtering once: the
    filter leaves alone an array whose stripped keys are all different,
    which its own result is. *)
Theorem dedup_idempotent (array : list Node) :
  dedup (dedup array) = dedup array.
Proof. apply dedup_fixed, dedup_NoDup. Qed.

(** ** The page of a folder *)

Lemma insertBy_Permutation {A : Type} (cmp : A -> A -> comparison) (x : A)
  (l : list A) :
  Permutation (Js.insertBy cmp x l) (x :: l).
Proof.
  induction l as [|y t IH]; simpl; [reflexivity|].
  destruct (cmp x y); try reflexivity.
  rewrite IH. apply perm_swap.
Qed.

Lemma sortBy_Permutation {A : Type} (cmp : A -> A -> comparison)
  (l : list A) :
  Permutation (Js.sortBy cmp l) l.
Proof.
  induction l as [|x t IH]; simpl; [reflexivity|].
  rewrite insertBy_Permutation. now constructor.
Qed.

(** X13: the items of a page are the children that pass the hidden
    filter, each as many times as it is a child, in some order; with
    include-hidden-files set they are all the children. *)
Theorem page_items_permute_children
  (localeCompare : string -> string -> comparison) (options : Options)
  (t : TreeNode) :
  Permutation (pageItems localeCompare options t)
    (filter
       (fun c => includeHiddenFiles options || negb (IsHiddenFile c))
       (Children t))
  /\ (if includeHiddenFiles options
      then Permutation (pageItems localeCompare options t) (Children t)
      else Forall (fun c => IsHiddenFile c = false)
             (pageItems localeCompare options t)).
Proof.
  split; [apply sortBy_Permutation|].
  unfold pageItems, visibleChildren.
  destruct (includeHiddenFiles options); simpl.
  - rewrite sortBy_Permutation.
    induction (Children t) as [|c l IH]; simpl; [reflexivity|].
    now constructor.
  - apply Forall_forall. intros c Hc.
    apply sortBy_In, filter_In in Hc as [_ Hc].
    now apply negb_true_iff in Hc.
Qed.

Lemma allFiles_insertBy (cmp : Node -> Node -> comparison) (x : Node)
  (l : list Node) :
  forallb (fun y => negb (IsFolder y)) (Js.insertBy cmp x l)
  = negb (IsFolder x) && forallb (fun y => negb (IsFolder y)) l.
Proof.
  induction l as [|y t IH]; simpl; [reflexivity|].
  destruct (cmp x y); simpl; try reflexivity.
  rewrite IH. now destruct (IsFolder x), (IsFolder y).
Qed.

Lemma insertBy_foldersFirst
  (localeCompare : string -> string -> comparison) (x : Node)
  (l : list Node) :
  foldersFirst l = true ->
  foldersFirst (Js.insertBy (compareItems localeCompare) x l) = true.
Proof.
  induction l as [|y t IH]; intros Hl.
  - simpl. now rewrite orb_true_r.
  - change (foldersFirst (y :: t))
      with ((IsFolder y || forallb (fun z => negb (IsFolder z)) t)
            && foldersFirst t) in Hl.
    apply andb_true_iff in Hl as [Hy Ht].
    assert (Hkeep : foldersFirst (x :: y :: t) = true
                    \/ (IsFolder x = false /\ IsFolder y = true)).
    { destruct (IsFolder x) eqn:Hx; [left | destruct (IsFolder y) eqn:Hfy].
      - simpl. now rewrite Hx, Hy, Ht.
      - now right.
      - left. simpl. rewrite Hx, Hfy in *. simpl in *. now rewrite Hy, Ht. }
    cbn [Js.insertBy].
    destruct (compareItems localeCompare x y) eqn:Hc.
    + destruct Hkeep as [H | [Hx Hfy]]; [exact H|].
      unfold compareItems in Hc. rewrite Hx, Hfy in Hc. discriminate Hc.
    + destruct Hkeep as [H | [Hx Hfy]]; [exact H|].
      unfold compareItems in Hc. rewrite Hx, Hfy in Hc. discriminate Hc.
    + change (foldersFirst
                (y :: Js.insertBy (compareItems localeCompare) x t))
        with ((IsFolder y
               || forallb (fun z => negb (IsFolder z))
                    (Js.insertBy (compareItems localeCompare) x t))
              && foldersFirst
                   (Js.insertBy (compareItems localeCompare) x t)).
      rewrite (IH Ht), andb_true_r, allFiles_insertBy.
      destruct (IsFolder y) eqn:Hfy; [reflexivity|].
      simpl in Hy. rewrite Hy, andb_true_r. simpl.
      destruct (IsFolder x) eqn:Hx; [|reflexivity].
      unfold compareItems in Hc. rewrite Hx, Hfy in Hc. discriminate Hc.
Qed.

(** X14: on every page the folders come before the files, whatever the
    locale comparison does with the names. *)
Theorem page_items_folders_first
  (localeCompare : string -> string -> comparison) (options : Options)
  (t : TreeNode) :
  foldersFirst (pageItems localeCompare options t) = true.
Proof.
  unfold pageItems, Js.sortBy.
  induction (visibleChildren options t) as [|x l IH]; [reflexivity|].
  simpl. now apply insertBy_foldersFirst.
Qed.

Lemma ascending_cons {A : Type} (cmp : A -> A -> comparison) (y : A)
  (l : list A) :
  ascending cmp (y :: l)
  <-> match l with [] => True | z :: _ => cmp y z <> Gt end
      /\ ascending cmp l.
Proof. destruct l; simpl; tauto. Qed.

Lemma insertBy_ascending {A : Type} (cmp : A -> A -> comparison) (x : A)
  (l : list A) :
  (forall a b, cmp a b = Gt -> cmp b a <> Gt) ->
  ascending cmp l ->
  ascending cmp (Js.insertBy cmp x l).
Proof.
  intros Hanti. induction l as [|y t IH]; intros Hl; [exact I|].
  simpl. destruct (cmp x y) eqn:Hxy.
  - apply ascending_cons. split; [congruence | exact Hl].
  - apply ascending_cons. split; [congruence | exact Hl].
  - apply ascending_cons in Hl as [Hhead Ht].
    apply ascending_cons. split; [|now apply IH].
    destruct t as [|z t']; simpl.
    + now apply Hanti.
    + destruct (cmp x z); [now apply Hanti | now apply Hanti | exact Hhead].
Qed.

Lemma sortBy_ascending {A : Type} (cmp : A -> A -> comparison)
  (l : list A) :
  (forall a b, cmp a b = Gt -> cmp b a <> Gt) ->
  ascending cmp (Js.sortBy cmp l).
Proof.
  intros Hanti. induction l as [|x t IH]; [exact I|].
  simpl. now apply insertBy_ascending.
Qed.

Lemma compareItems_antisym
  (localeCompare : string -> string -> comparison) :
  (forall a b, localeCompare a b = Gt -> localeCompare b a <> Gt) ->
  forall a b, compareItems localeCompare a b = Gt ->
              compareItems localeCompare b a <> Gt.
Proof.
  intros Hanti a b. unfold compareItems.
  destruct (IsFolder a), (IsFolder b); simpl; try discriminate;
    apply Hanti.
Qed.

(** X15: when the locale comparison never puts two names both ways
    round, every item of a page is not greater than the next one by the
    page's comparator: a folder before a file, otherwise by name. *)
Theorem page_items_ascending
  (localeCompare : string -> string -> comparison) (options : Options)
  (t : TreeNode) :
  (forall a b, localeCompare a b = Gt -> localeCompare b a <> Gt) ->
  ascending (compareItems localeCompare)
    (pageItems localeCompare options t).
Proof.
  intros Hanti. apply sortBy_ascending.
  now apply compareItems_antisym.
Qed.

Lemma string_compare_antisym (a b : string) :
  String.compare a b = Gt -> String.compare b a <> Gt.
Proof.
  intros H. rewrite String.compare_antisym, H. discriminate.
Qed.

Lemma page_items_ascending_witness :
  (forall a b, String.compare a b = Gt -> String.compare b a <> Gt)
  /\ ascending (compareItems String.compare)
       (pageItems String.compare sampleOptions
          {| node := sampleRoot; Children := [sampleFile; sampleDocs] |}).
Proof.
  split; [exact string_compare_antisym|].
  apply (page_items_ascending String.compare sampleOptions).
  exact string_compare_antisym.
Defined.

(** The children {z.txt, a (folder), m.txt} come out as a, m.txt,
    z.txt. *)
Example folders_then_names :
  let file name :=
    {| Key := Some name; KeyParts := [name]; LevelsDeep := 1;
       IsFolder := false; IsFile := true; IsHiddenFile := false;
       ParentKey := ""; FileName := name; URL := "" |} in
  let folder name :=
    {| Key := Some name; KeyParts := [name]; LevelsDeep := 1;
       IsFolder := true; IsFile := false; IsHiddenFile := false;
       ParentKey := ""; FileName := name; URL := "" |} in
  map FileName
    (pageItems String.compare sampleOptions
       {| node := sampleRoot;
          Children := [file "z.txt"; folder "a"; file "m.txt"] |})
  = ["a"; "m.txt"; "z.txt"].
Proof. reflexivity. Qed.

(** ** The listing loop *)

Lemma listAll_sent (fuel : nat)
  (send : ListObjectsCommand -> option Response) (options : Options) :
  forall command,
    match fst (listAll fuel send options command) with
    | [] => fuel = 0
    | first :: rest =>
        first = Send command /\ Forall (isFollowUp options) rest
    end.
Proof.
  induction fuel as [|fuel IH]; intros command; [reflexivity|].
  simpl. destruct (send command) as [response|]; [|now split].
  destruct (Js.truthyOpt (NextMarker response)) eqn:Hmarker; [|now split].
  specialize (IH {| Bucket := bucket options; MaxKeys := 100;
                    Marker := NextMarker response |}).
  destruct (listAll fuel send options _) as [sent rest] eqn:Hrest.
  simpl in *. split; [reflexivity|].
  destruct sent as [|first more]; [constructor|].
  destruct IH as [-> Hmore]. constructor; [|exact Hmore].
  destruct (NextMarker response) as [marker|]; [|discriminate].
  exists marker. now split.
Qed.

Example two_pages_listed :
  listAll 8 twoPageService sampleOptions
    {| Bucket := "site"; MaxKeys := 1000; Marker := None |}
  = ([Send {| Bucket := "site"; MaxKeys := 1000; Marker := None |};
      Send {| Bucket := "site"; MaxKeys := 100; Marker := Some "m" |}],
     AllObjects [objectWithKey "a/x"; objectWithKey "b"]).
Proof. reflexivity. Qed.

Lemma listAll_contents (fuel : nat)
  (send : ListObjectsCommand -> option Response) (options : Options) :
  forall command sent objects,
    listAll fuel send options command = (sent, AllObjects objects) ->
    objects = contentsOf send sent.
Proof.
  induction fuel as [|fuel IH]; intros command sent objects H;
    [discriminate|].
  simpl in H. destruct (send command) as [response|] eqn:Hsend;
    [|discriminate].
  destruct (Js.truthyOpt (NextMarker response)).
  - destruct (listAll fuel send options _) as [sent' rest] eqn:Hrest.
    destruct rest as [objects'| |]; try discriminate.
    inversion H; subst. unfold contentsOf. simpl. rewrite Hsend.
    f_equal. now apply (IH _ _ _ Hrest).
  - inversion H; subst. unfold contentsOf. simpl. rewrite Hsend.
    now rewrite app_nil_r.
Qed.

(** X17: when the listing loop ends with a complete listing, the listing
    holds exactly the contents of the responses to the requests it
    made, page after page in request order; a response without contents
    adds nothing. *)
Theorem listing_is_the_pages_in_order (fuel : nat)
  (send : ListObjectsCommand -> option Response) (options : Options)
  (command : ListObjectsCommand) (sent : list Effect)
  (objects : list S3.Object) :
  listAll fuel send options command = (sent, AllObjects objects) ->
  objects = contentsOf send sent.
Proof. apply listAll_contents. Qed.

Lemma listing_is_the_pages_in_order_witness :
  let first := {| Bucket := "site"; MaxKeys := 1000; Marker := None |} in
  let sent :=
    [Send first;
     Send {| Bucket := "site"; MaxKeys := 100; Marker := Some "m" |}] in
  let objects := [objectWithKey "a/x"; objectWithKey "b"] in
  listAll 8 twoPageService sampleOptions first = (sent, AllObjects objects)
  /\ objects = contentsOf twoPageService sent.
Proof.
  intros first sent objects. split; [reflexivity|].
  apply (listing_is_the_pages_in_order 8 twoPageService sampleOptions first
           sent objects).
  reflexivity.
Defined.

(** ** What a run writes *)

Lemma listAll_only_sends (fuel : nat)
  (send : ListObjectsCommand -> option Response) (options : Options)
  (command : ListObjectsCommand) :
  Forall (fun e => exists c, e = Send c)
    (fst (listAll fuel send options command)).
Proof.
  pose proof (listAll_sent fuel send options command) as H.
  destruct (fst (listAll fuel send options command)) as [|first rest];
    [constructor|].
  destruct H as [-> Hrest]. constructor; [now exists command|].
  apply (Forall_impl _ (P := isFollowUp options)); [|exact Hrest].
  intros e [marker [_ ->]]. eexists. reflexivity.
Qed.

Lemma started_is_console (cli : Options) :
  Forall (fun e => exists msg, e = ConsoleLog msg)
    ((if verbose cli then [ConsoleLog "Verbose output enabled."] else [])
     ++ (if forcesPathStyle cli && verbose cli
         then [ConsoleLog "Forcing Path Style since endpoint is specified."]
         else []))%list.
Proof.
  destruct (verbose cli), (forcesPathStyle cli); simpl;
    repeat constructor; eexists; reflexivity.
Qed.

Lemma filter_none_of {A : Type} (P : A -> bool) (Q : A -> Prop)
  (l : list A) :
  Forall Q l -> (forall x, Q x -> P x = false) -> filter P l = [].
Proof.
  intros Hall Hq. apply filter_none. intros x Hx.
  rewrite Forall_forall in Hall. now apply Hq, Hall.
Qed.

Lemma console_not_output (e : Effect) :
  (exists msg, e = ConsoleLog msg) -> writesOutput e = false.
Proof. now intros [msg ->]. Qed.

Lemma send_not_output (e : Effect) :
  (exists c, e = Send c) -> writesOutput e = false.
Proof. now intros [c ->]. Qed.

Lemma unfinished_run_writes_nothing
  (localeCompare : string -> string -> comparison)
  (compareCodeUnits : string -> string -> comparison) (fuel : nat)
  (send : ListObjectsCommand -> option Response) (cli : Options) :
  status (run localeCompare compareCodeUnits fuel send cli) <> Finished ->
  filter writesOutput (trace (run localeCompare compareCodeUnits fuel send cli)) = [].
Proof.
  unfold run.
  pose proof (started_is_console cli) as Hstarted.
  set (started := (_ ++ _)%list) in *.
  assert (Hs : filter writesOutput started = []).
  { apply (filter_none_of _ _ _ Hstarted), console_not_output. }
  destruct (includeSitemap (normalizeOptions cli)
            && negb (Js.truthy (domain (normalizeOptions cli)))).
  { intros _. simpl. now rewrite filter_app, Hs. }
  destruct (negb (Js.truthy (bucket (normalizeOptions cli)))).
  { intros _. simpl. now rewrite filter_app, Hs. }
  pose proof (listAll_only_sends fuel send (normalizeOptions cli)
                {| Bucket := bucket (normalizeOptions cli);
                   MaxKeys := 1000; Marker := None |}) as Hsent.
  destruct (listAll fuel send (normalizeOptions cli) _) as [sent listed].
  simpl in Hsent.
  assert (Hl : filter writesOutput sent = []).
  { apply (filter_none_of _ _ _ Hsent), send_not_output. }
  destruct listed as [allObjects| |].
  - destruct (result (normalizeOptions cli) allObjects).
    + intros H. now elim H.
    + intros _. simpl. now rewrite filter_app, Hs, Hl.
  - intros _. simpl. now rewrite filter_app, Hs, Hl.
  - intros _. simpl. now rewrite filter_app, Hs, Hl.
Qed.

(** X19: without a bucket name the run ends with exit code 1 before any
    request to the storage service and before any write, whether or not
    a sitemap was asked for. *)
Theorem missing_bucket_exits_first
  (localeCompare : string -> string -> comparison)
  (compareCodeUnits : string -> string -> comparison) (fuel : nat)
  (send : ListObjectsCommand -> option Response) (cli : Options) :
  bucket cli = "" ->
  status (run localeCompare compareCodeUnits fuel send cli) = Exit 1
  /\ forallb (fun e => negb (isListingRequest e || writesOutput e))
       (trace (run localeCompare compareCodeUnits fuel send cli)) = true.
Proof.
  intros Hbucket. unfold run.
  destruct (normalizeOptions_keeps cli) as [_ [_ Hb]].
  rewrite Hb, Hbucket.
  destruct (includeSitemap (normalizeOptions cli)
            && negb (Js.truthy (domain (normalizeOptions cli))));
    simpl; (split; [reflexivity|]);
    destruct (verbose cli), (forcesPathStyle cli); reflexivity.
Qed.

Lemma missing_bucket_exits_first_witness :
  bucket (defaults "" "us-east-1") = ""
  /\ status (run String.compare String.compare 8 sampleService (defaults "" "us-east-1"))
     = Exit 1.
Proof.
  split; [reflexivity|].
  apply (missing_bucket_exits_first String.compare String.compare 8 sampleService
           (defaults "" "us-east-1")).
  reflexivity.
Defined.

Lemma emitPages_no_sitemap
  (localeCompare : string -> string -> comparison) (options : Options)
  (tree : list TreeNode) :
  filter isSitemapWrite (emitPages localeCompare options tree) = [].
Proof.
  unfold emitPages. induction tree as [|t rest IH]; [reflexivity|].
  simpl. rewrite filter_app, IH, app_nil_r. unfold emitPage.
  now destruct (IsFile (node t)).
Qed.

(** X20: the sitemap is written once by a finished run that was asked
    for it, and never otherwise: not when include-sitemap is unset,
    whatever the domain, and not by a run that does not finish. *)
Theorem sitemap_written_once_when_asked
  (localeCompare : string -> string -> comparison)
  (compareCodeUnits : string -> string -> comparison) (fuel : nat)
  (send : ListObjectsCommand -> option Response) (cli : Options) :
  List.length
    (filter isSitemapWrite (trace (run localeCompare compareCodeUnits fuel send cli)))
  = match status (run localeCompare compareCodeUnits fuel send cli) with
    | Finished => if includeSitemap cli then 1 else 0
    | _ => 0
    end.
Proof.
  unfold run.
  pose proof (started_is_console cli) as Hstarted.
  set (started := (_ ++ _)%list) in *.
  assert (Hs : filter isSitemapWrite started = []).
  { apply (filter_none_of _ _ _ Hstarted). now intros e [msg ->]. }
  destruct (normalizeOptions_keeps cli) as [Hmap _].
  destruct (includeSitemap (normalizeOptions cli)
            && negb (Js.truthy (domain (normalizeOptions cli)))).
  { simpl. now rewrite filter_app, Hs. }
  destruct (negb (Js.truthy (bucket (normalizeOptions cli)))).
  { simpl. now rewrite filter_app, Hs. }
  pose proof (listAll_only_sends fuel send (normalizeOptions cli)
                {| Bucket := bucket (normalizeOptions cli);
                   MaxKeys := 1000; Marker := None |}) as Hsent.
  destruct (listAll fuel send (normalizeOptions cli) _) as [sent listed].
  simpl in Hsent.
  assert (Hl : filter isSitemapWrite sent = []).
  { apply (filter_none_of _ _ _ Hsent). now intros e [c ->]. }
  destruct listed as [allObjects| |];
    try (simpl; now rewrite filter_app, Hs, Hl).
  destruct (result (normalizeOptions cli) allObjects) as [tree|];
    [|simpl; now rewrite filter_app, Hs, Hl].
  cbn [trace status].
  rewrite !filter_app, Hs, Hl, emitPages_no_sitemap.
  unfold emitSitemap. rewrite Hmap.
  now destruct (includeSitemap cli).
Qed.

Lemma indexKeys_app (a b : list Effect) :
  indexKeys (a ++ b) = (indexKeys a ++ indexKeys b)%list.
Proof. apply flat_map_app. Qed.

Lemma indexKeys_none (Q : Effect -> Prop) (l : list Effect) :
  Forall Q l ->
  (forall e, Q e -> forall o k p, e <> WriteIndex o k p) ->
  indexKeys l = [].
Proof.
  intros Hall Hq. induction Hall as [|e l He _ IH]; [reflexivity|].
  unfold indexKeys in *. simpl. rewrite IH.
  destruct e; try reflexivity. now elim (Hq _ He outputPath key page).
Qed.

Lemma indexKeys_emitPages
  (localeCompare : string -> string -> comparison) (options : Options)
  (tree : list TreeNode) :
  indexKeys (emitPages localeCompare options tree)
  = map (fun t => Key (node t))
      (filter (fun t => negb (IsFile (node t))) tree).
Proof.
  unfold emitPages. induction tree as [|t rest IH]; [reflexivity|].
  simpl. rewrite indexKeys_app, IH. unfold emitPage.
  now destruct (IsFile (node t)).
Qed.



(** ** The sitemap *)

(** X22: the URLs of the sitemap are pairwise different and are exactly
    the entries of the nodes of the tree that are not files; when the
    order of the default sort never puts two strings both ways round,
    as the order by code units does not, each URL is not greater than
    the next one. *)
Theorem sitemap_urls_sorted_and_distinct
  (compareCodeUnits : string -> string -> comparison) (options : Options)
  (tree : list TreeNode) :
  (forall a b, compareCodeUnits a b = Gt -> compareCodeUnits b a <> Gt) ->
  NoDup (sitemapUrls compareCodeUnits options tree)
  /\ ascending compareCodeUnits (sitemapUrls compareCodeUnits options tree)
  /\ forall u,
       In u (sitemapUrls compareCodeUnits options tree)
       <-> exists t, In t tree /\ IsFile (node t) = false
                     /\ u = sitemapEntry options t.
Proof.
  intros Hanti. unfold sitemapUrls. split; [|split].
  - apply (Permutation_NoDup
             (Permutation_sym (sortBy_Permutation compareCodeUnits _))).
    apply NoDup_nodup.
  - now apply sortBy_ascending.
  - intros u. rewrite sortBy_In, nodup_In, in_map_iff. split.
    + intros [t [Hu Ht]]. apply filter_In in Ht as [Ht Hfile].
      exists t. split; [exact Ht|]. split; [|now symmetry].
      now apply negb_true_iff in Hfile.
    + intros [t [Ht [Hfile ->]]]. exists t. split; [reflexivity|].
      apply filter_In. split; [exact Ht | now rewrite Hfile].
Qed.

Lemma sitemap_urls_sorted_and_distinct_witness :
  (forall a b, String.compare a b = Gt -> String.compare b a <> Gt)
  /\ NoDup (sitemapUrls String.compare sampleOptions sampleTree)
  /\ ascending String.compare
       (sitemapUrls String.compare sampleOptions sampleTree).
Proof.
  split; [exact string_compare_antisym|].
  pose proof (sitemap_urls_sorted_and_distinct String.compare sampleOptions
                sampleTree string_compare_antisym) as [H1 [H2 _]].
  now split.
Defined.

Lemma strip_truthy_good (item : option string) (r : string) :
  removeLeadingTrailingSlashes item = Some r ->
  Js.truthy r = true ->
  r <> "" /\ Js.startsWith r "/" = false /\ Js.endsWithSlash r = false.
Proof.
  intros Hr Ht. destruct item as [s|]; [|discriminate].
  destruct (strip_decompose s) as [a [r' [b [Hr' [_ [_ [_ [H1 H2]]]]]]]].
  rewrite Hr in Hr'. inversion Hr'; subst r'.
  split; [|now split]. intros ->. discriminate Ht.
Qed.

Lemma join_outer_slashes (parts : list string) :
  Forall (fun r => r <> "" /\ Js.startsWith r "/" = false
                   /\ Js.endsWithSlash r = false) parts ->
  Js.startsWith (Js.join parts) "/" = false
  /\ Js.endsWithSlash (Js.join parts) = false.
Proof.
  induction 1 as [|x t [Hne [Hstart Hend]] Ht [_ IH]]; [now split|].
  destruct t as [|y t']; [now split|].
  rewrite join_cons2. split.
  - destruct x as [|c x']; [now elim Hne|].
    cbn [String.append]. now rewrite startsWith_slash in *.
  - rewrite endsWithSlash_append by discriminate.
    change (String Js.slash (Js.join (y :: t')))
      with ("/" ++ Js.join (y :: t')).
    inversion Ht as [|? ? [Hy _] _]; subst.
    rewrite endsWithSlash_append by now apply join_not_empty.
    exact IH.
Qed.

(** X23: a sitemap entry is the domain, the root path and the key, each
    stripped and dropped when empty, joined by single slashes: so it
    neither starts nor ends with a slash, and stripping it again changes
    nothing. *)
Theorem sitemap_entry_has_no_outer_slash (options : Options)
  (t : TreeNode) :
  Js.startsWith (sitemapEntry options t) "/" = false
  /\ Js.endsWithSlash (sitemapEntry options t) = false
  /\ removeLeadingTrailingSlashes (Some (sitemapEntry options t))
     = Some (sitemapEntry options t).
Proof.
  assert (H : Js.startsWith (sitemapEntry options t) "/" = false
              /\ Js.endsWithSlash (sitemapEntry options t) = false).
  { unfold sitemapEntry. apply join_outer_slashes.
    apply Forall_forall. intros r Hr.
    apply in_flat_map in Hr as [item [_ Hr]].
    destruct (removeLeadingTrailingSlashes item) as [s|] eqn:Hs;
      [|contradiction].
    destruct (Js.truthy s) eqn:Ht; [|contradiction].
    destruct Hr as [<- | []]. now apply (strip_truthy_good item). }
  destruct H as [H1 H2]. split; [exact H1|]. split; [exact H2|].
  now apply strip_fixed.
Qed.

Example sitemap_entries :
  sitemapUrls String.compare
    {| bucket := "site"; region := "us-east-1"; endpoint := None;
       includeHiddenFiles := false; includeSitemap := true;
       domain := "https://example.org/"; rootPath := "/files/";
       forcePathStyle := false; output := "."; verbose := false |}
    sampleTree
  = ["https://example.org/files"; "https://example.org/files/docs"].
Proof. reflexivity. Qed.

(** ** Reaching every node *)

Lemma parent_key_of_listed (options : Options)
  (allObjects : list S3.Object) (classified : list Node) (n : Node) :
  classifyAll options allObjects = Some classified ->
  In n (merged options classified) ->
  1 <= LevelsDeep n ->
  exists o r j,
    In o allObjects
    /\ classify options allObjects o = Some r
    /\ j < List.length (KeyParts r)
    /\ S j = LevelsDeep n
    /\ ParentKey n = Js.join (firstn j (KeyParts r)).
Proof.
  intros Hc Hn Hdepth.
  pose proof (merged_fields _ _ _ n Hc Hn)
    as [_ [_ [Hlen [_ [Hparent _]]]]].
  destruct (merged_prefix_of_listed _ _ _ n Hc Hn)
    as [o [r [i [Ho [Hcl [_ [Hi [Hrlen [_ [_ [Hpre _]]]]]]]]]]].
  assert (Hnlen : List.length (KeyParts n) = i)
    by (rewrite Hpre, length_firstn; lia).
  exists o, r, (pred i). repeat split; try assumption; try lia.
  rewrite Hparent. unfold parentKeyOf.
  rewrite removelast_firstn_len, Hnlen, Hpre, firstn_firstn.
  do 2 f_equal. lia.
Qed.

(** X24: in a listing whose keys have no leading and no doubled slash,
    the node under which a node of depth at least 1 is listed is a
    folder, so it has a page: every such node is among the children of
    a page that is written. *)
Theorem parent_is_a_folder_for_tidy_keys (options : Options)
  (allObjects : list S3.Object) (tree : list TreeNode) (n : Node) :
  tidyListing allObjects = true ->
  result options allObjects = Some tree ->
  In n (map node tree) ->
  1 <= LevelsDeep n ->
  exists t,
    In t tree
    /\ In n (Children t)
    /\ IsFolder (node t) = true
    /\ IsFile (node t) = false.
Proof.
  intros Htidy Hres Hn Hdepth.
  destruct (one_parent _ _ _ n Hres Hn Hdepth) as [t [Ht [Hch [Htk _]]]].
  exists t. split; [exact Ht|]. split; [exact Hch|].
  destruct (tree_in_merged _ _ _ Hres) as [classified [Hc [_ Hin]]].
  pose proof (Hin _ (in_map node _ _ Ht)) as Htm.
  pose proof (merged_fields _ _ _ (node t) Hc Htm)
    as [_ [_ [_ [Hfile _]]]].
  assert (Hfolder : IsFolder (node t) = true);
    [|split; [exact Hfolder | now rewrite Hfile, Hfolder]].
  destruct (parent_key_of_listed _ _ _ n Hc (Hin _ Hn) Hdepth)
    as [o [r [j [Ho [Hcl [Hj [_ Hparent]]]]]]].
  destruct (classify_canonical _ _ _ _ Htidy Ho Hcl)
    as [K [HK [_ [HKparts [HKshape _]]]]].
  assert (Hseg : Forall (fun seg => isSegment seg = true) (KeyParts r))
    by (rewrite HKparts; apply keyPartsOf_segments).
  pose proof (merged_canonical _ _ _ _ Htidy Hc Htm) as [Htn [Htseg _]].
  assert (Htparts : KeyParts (node t) = firstn j (KeyParts r)).
  { apply join_segments_inj; [exact Htseg | now apply Forall_firstn|].
    rewrite Htk, Hparent in Htn. now inversion Htn. }
  apply merged_In in Htm as [r' [Hr' Hcase]].
  destruct Hcase as [Heq | [i [_ Heq]]]; [|now rewrite Heq].
  rewrite Heq in *. clear Heq.
  pose proof (proj1 (mapThrow_In _ _ _ Hc r') Hr') as [o' [Ho' Hcl']].
  destruct (classify_canonical _ _ _ _ Htidy Ho' Hcl')
    as [K' [HK' [_ [HK'parts [HK'shape _]]]]].
  pose proof (classify_Some _ _ _ _ Hcl')
    as [_ [_ [Hne' [_ [Hisfolder _]]]]].
  rewrite Hisfolder.
  assert (Hpos : 0 < j < List.length (KeyParts r)).
  { split; [|exact Hj]. destruct j; [|lia].
    rewrite Htparts in Hne'. now elim Hne'. }
  apply (isFolder_intro allObjects o' o K' K Ho HK' HK).
  - rewrite Htparts in HK'shape.
    destruct HKshape as [HKs | HKs]; rewrite HKs at 1;
      [rewrite <- (append_nil_r (Js.join (KeyParts r)))|];
      (destruct HK'shape as [-> | ->];
       [rewrite <- (append_nil_r (Js.join (firstn j (KeyParts r))))|];
       apply startsWith_ancestor_key; auto).
  - intros Heq. subst K'.
    rewrite <- HK'parts, Htparts in HKparts.
    apply (f_equal (@List.length string)) in HKparts.
    rewrite length_firstn in HKparts. lia.
Qed.

Lemma parent_is_a_folder_for_tidy_keys_witness :
  tidyListing sampleListing = true
  /\ result sampleOptions sampleListing = Some sampleTree
  /\ In sampleFile (map node sampleTree)
  /\ 1 <= LevelsDeep sampleFile
  /\ exists t,
       In t sampleTree
       /\ In sampleFile (Children t)
       /\ IsFolder (node t) = true
       /\ IsFile (node t) = false.
Proof.
  split; [reflexivity|]. split; [reflexivity|].
  split; [simpl; tauto|]. split; [simpl; lia|].
  apply (parent_is_a_folder_for_tidy_keys sampleOptions sampleListing
           sampleTree sampleFile);
    [reflexivity | reflexivity | simpl; tauto | simpl; lia].
Defined.

(** ** copyDir *)

Lemma DirEntry_nested_ind (P : DirEntry -> Prop) :
  (forall name, P (FileEntry name)) ->
  (forall name entries, Forall P entries ->
                        P (DirectoryEntry name entries)) ->
  forall entry, P entry.
Proof.
  intros Hfile Hdir. fix IH 1. intros [name | name entries].
  - apply Hfile.
  - apply Hdir. induction entries as [|e rest IHrest]; constructor.
    + apply IH.
    + exact IHrest.
Qed.

Lemma perm_two_heads {A : Type} (m r : A) (rest a b c : list A) :
  Permutation rest (a ++ b ++ c) ->
  Permutation (m :: r :: rest) (a ++ (m :: b) ++ (r :: c)).
Proof.
  intros H. rewrite H.
  transitivity (m :: (a ++ b) ++ r :: c)%list.
  - constructor. rewrite app_assoc. apply Permutation_middle.
  - rewrite <- app_assoc.
    apply (Permutation_middle a (b ++ r :: c)%list m).
Qed.

Lemma perm_three_parts {A : Type} (a1 b1 c1 a2 b2 c2 : list A) :
  Permutation ((a1 ++ b1 ++ c1) ++ (a2 ++ b2 ++ c2))
    ((a1 ++ a2) ++ (b1 ++ b2) ++ (c1 ++ c2)).
Proof.
  rewrite <- !app_assoc. apply Permutation_app_head.
  transitivity (b1 ++ a2 ++ c1 ++ b2 ++ c2)%list.
  - apply Permutation_app_head, Permutation_app_swap_app.
  - rewrite Permutation_app_swap_app.
    apply Permutation_app_head, Permutation_app_head,
      Permutation_app_swap_app.
Qed.

Lemma copyEntries_mirror (src dest : list string) (entries : list DirEntry) :
  Forall
    (fun e =>
       forall s d,
         Permutation (copyEntry s d e)
           (map (fun rel => FsCopyFile (s ++ rel) (d ++ rel)) (filesOf e)
            ++ map (fun rel => FsMkdir (d ++ rel)) (directoriesOf e)
            ++ map (fun rel => FsReaddir (s ++ rel)) (directoriesOf e)))
    entries ->
  Permutation (flat_map (copyEntry src dest) entries)
    (map (fun rel => FsCopyFile (src ++ rel) (dest ++ rel))
       (flat_map filesOf entries)
     ++ map (fun rel => FsMkdir (dest ++ rel))
          (flat_map directoriesOf entries)
     ++ map (fun rel => FsReaddir (src ++ rel))
          (flat_map directoriesOf entries)).
Proof.
  induction 1 as [|e l He _ IH]; [reflexivity|].
  cbn [flat_map]. rewrite !map_app, (He src dest), IH.
  apply perm_three_parts.
Qed.

Lemma copyEntry_mirror (entry : DirEntry) :
  forall src dest,
    Permutation (copyEntry src dest entry)
      (map (fun rel => FsCopyFile (src ++ rel) (dest ++ rel))
         (filesOf entry)
       ++ map (fun rel => FsMkdir (dest ++ rel)) (directoriesOf entry)
       ++ map (fun rel => FsReaddir (src ++ rel)) (directoriesOf entry)).
Proof.
  induction entry as [name | name entries IH] using DirEntry_nested_ind;
    intros src dest; [reflexivity|].
  cbn [copyEntry filesOf directoriesOf map].
  rewrite !map_map.
  assert (Hc : map (fun rel => FsCopyFile (src ++ name :: rel)
                                 (dest ++ name :: rel))
                 (flat_map filesOf entries)
               = map (fun rel => FsCopyFile ((src ++ [name]) ++ rel)
                                   ((dest ++ [name]) ++ rel))
                   (flat_map filesOf entries)).
  { apply map_ext. intros rel. now rewrite <- !app_assoc. }
  assert (Hm : map (fun rel => FsMkdir (dest ++ name :: rel))
                 (flat_map directoriesOf entries)
               = map (fun rel => FsMkdir ((dest ++ [name]) ++ rel))
                   (flat_map directoriesOf entries)).
  { apply map_ext. intros rel. now rewrite <- !app_assoc. }
  assert (Hr : map (fun rel => FsReaddir (src ++ name :: rel))
                 (flat_map directoriesOf entries)
               = map (fun rel => FsReaddir ((src ++ [name]) ++ rel))
                   (flat_map directoriesOf entries)).
  { apply map_ext. intros rel. now rewrite <- !app_assoc. }
  rewrite Hc, Hm, Hr.
  apply perm_two_heads. now apply copyEntries_mirror.
Qed.

(** X25: up to the order of the calls, [copyDir] makes exactly the
    calls that mirror the source directory: one [copyFile] for every
    file, from its path under the source to the same relative path
    under the destination, and one [mkdir] at the mirrored path and one
    [readdir] of the source path for the directory itself and for every
    sub-directory. There is no other call, so nothing is created
    outside the destination. *)
Theorem copyDir_mirrors_the_source (src dest : list string)
  (entries : list DirEntry) :
  Permutation (copyDir src dest entries) (mirrorCalls src dest entries).
Proof.
  unfold copyDir, mirrorCalls. cbn [map]. rewrite !app_nil_r.
  apply perm_two_heads, copyEntries_mirror.
  apply Forall_forall. intros e _. apply copyEntry_mirror.
Qed.

Example copy_public :
  copyDir ["pkg"; "public"] ["out"; "public"]
    [FileEntry "style.css";
     DirectoryEntry "icons" [FileEntry "folder.svg"; FileEntry "file.svg"]]
  = [FsMkdir ["out"; "public"];
     FsReaddir ["pkg"; "public"];
     FsCopyFile ["pkg"; "public"; "style.css"] ["out"; "public"; "style.css"];
     FsMkdir ["out"; "public"; "icons"];
     FsReaddir ["pkg"; "public"; "icons"];
     FsCopyFile ["pkg"; "public"; "icons"; "folder.svg"]
       ["out"; "public"; "icons"; "folder.svg"];
     FsCopyFile ["pkg"; "public"; "icons"; "file.svg"]
       ["out"; "public"; "icons"; "file.svg"]].
Proof. reflexivity. Qed.

Lemma copyEntry_directory (src dest : list string) (name : string)
  (entries : list DirEntry) :
  copyEntry src dest (DirectoryEntry name entries)
  = copyDir (src ++ [name]) (dest ++ [name]) entries.
Proof. reflexivity. Qed.

(** ** More on the classifier *)

(** X26: the folder test only grows with the listing: an object that is
    a folder in a listing is still a folder when more objects are
    listed, before or after. *)
Theorem folder_stays_folder_in_larger_listing
  (before array after : list S3.Object) (o : S3.Object) :
  isFolder array o = true ->
  isFolder (before ++ array ++ after) o = true.
Proof.
  unfold isFolder. intros H.
  rewrite !existsb_app, H. apply orb_true_iff. right. reflexivity.
Qed.

Lemma folder_stays_folder_in_larger_listing_witness :
  isFolder [objectWithKey "a"; objectWithKey "ab"] (objectWithKey "a")
  = true
  /\ isFolder ([objectWithKey "0"]
               ++ [objectWithKey "a"; objectWithKey "ab"]
               ++ [objectWithKey "z"])
       (objectWithKey "a")
     = true.
Proof.
  split; [reflexivity|].
  apply (folder_stays_folder_in_larger_listing [objectWithKey "0"]
           [objectWithKey "a"; objectWithKey "ab"] [objectWithKey "z"]
           (objectWithKey "a")).
  reflexivity.
Defined.

(** ** The page of the root *)

Lemma contentsOf_app (send : ListObjectsCommand -> option Response)
  (a b : list Effect) :
  contentsOf send (a ++ b)
  = (contentsOf send a ++ contentsOf send b)%list.
Proof. apply flat_map_app. Qed.

Lemma contentsOf_none (send : ListObjectsCommand -> option Response)
  (l : list Effect) :
  Forall (fun e => isListingRequest e = false) l ->
  contentsOf send l = [].
Proof.
  induction 1 as [|e l He _ IH]; [reflexivity|].
  unfold contentsOf in *. simpl. rewrite IH.
  now destruct e.
Qed.

Lemma emitPages_no_request
  (localeCompare : string -> string -> comparison) (options : Options)
  (tree : list TreeNode) :
  Forall (fun e => isListingRequest e = false)
    (emitPages localeCompare options tree).
Proof.
  unfold emitPages. apply Forall_forall. intros e He.
  apply in_flat_map in He as [t [_ He]]. unfold emitPage in He.
  destruct (IsFile (node t)); [contradiction|].
  destruct He as [<- | [<- | []]]; reflexivity.
Qed.

(** X27: a finished run writes the index page of the root exactly when
    the responses to its listing requests held at least one object: an
    empty bucket gets no root page. *)
Theorem root_page_iff_bucket_not_empty
  (localeCompare : string -> string -> comparison)
  (compareCodeUnits : string -> string -> comparison) (fuel : nat)
  (send : ListObjectsCommand -> option Response) (cli : Options) :
  status (run localeCompare compareCodeUnits fuel send cli) = Finished ->
  (In (Some "/") (indexKeys (trace (run localeCompare compareCodeUnits fuel send cli)))
   <-> contentsOf send (trace (run localeCompare compareCodeUnits fuel send cli)) <> []).
Proof.
  unfold run.
  pose proof (started_is_console cli) as Hstarted.
  set (started := (_ ++ _)%list) in *.
  assert (Hs : indexKeys started = []).
  { apply (indexKeys_none _ _ Hstarted). intros e [msg ->]. discriminate. }
  assert (Hsc : contentsOf send started = []).
  { apply contentsOf_none.
    apply (Forall_impl _ (P := fun e => exists msg, e = ConsoleLog msg));
      [|exact Hstarted].
    now intros e [msg ->]. }
  destruct (includeSitemap (normalizeOptions cli)
            && negb (Js.truthy (domain (normalizeOptions cli))));
    [discriminate|].
  destruct (negb (Js.truthy (bucket (normalizeOptions cli))));
    [discriminate|].
  pose proof (listAll_only_sends fuel send (normalizeOptions cli)
                {| Bucket := bucket (normalizeOptions cli);
                   MaxKeys := 1000; Marker := None |}) as Hsent.
  destruct (listAll fuel send (normalizeOptions cli) _)
    as [sent listed] eqn:Hlist.
  simpl in Hsent.
  assert (Hl : indexKeys sent = []).
  { apply (indexKeys_none _ _ Hsent). intros e [c ->]. discriminate. }
  destruct listed as [allObjects| |]; try discriminate.
  destruct (result (normalizeOptions cli) allObjects) as [tree|] eqn:Hres;
    [|discriminate].
  intros _. cbn [trace].
  pose proof (listAll_contents _ _ _ _ _ _ Hlist) as Hobjects.
  rewrite !indexKeys_app, !contentsOf_app, Hs, Hl, Hsc, <- Hobjects.
  rewrite indexKeys_emitPages.
  rewrite (contentsOf_none send (emitPages _ _ _))
    by apply emitPages_no_request.
  assert (Hrest : indexKeys
                    (emitSitemap compareCodeUnits (normalizeOptions cli) tree
                     ++ [CopyPublic (output (normalizeOptions cli))])
                  = []
                  /\ contentsOf send
                       (emitSitemap compareCodeUnits (normalizeOptions cli) tree
                        ++ [CopyPublic (output (normalizeOptions cli))])
                     = []).
  { unfold emitSitemap.
    now destruct (includeSitemap (normalizeOptions cli)). }
  destruct Hrest as [Hri Hrc].
  rewrite <- indexKeys_app, <- contentsOf_app, Hri, Hrc.
  cbn [indexKeys contentsOf flat_map app]. rewrite !app_nil_r.
  destruct allObjects as [|o rest].
  - unfold result in Hres. simpl in Hres. inversion Hres; subst tree.
    simpl. split; [contradiction | intros H; now elim H].
  - split; [discriminate | intros _].
    pose proof (root_is_in_tree (normalizeOptions cli) (o :: rest) tree Hres)
      as Hroot.
    apply in_map_iff in Hroot as [t [Hnode Ht]]; [|discriminate].
    apply in_map_iff. exists t. split; [now rewrite Hnode|].
    apply filter_In. split; [exact Ht | now rewrite Hnode].
Qed.

Lemma root_page_iff_bucket_not_empty_witness :
  status (run String.compare String.compare 8 sampleService sampleOptions) = Finished
  /\ In (Some "/")
       (indexKeys (trace (run String.compare String.compare 8 sampleService sampleOptions))).
Proof.
  split; [reflexivity|].
  apply (root_page_iff_bucket_not_empty String.compare String.compare 8 sampleService
           sampleOptions); [reflexivity | discriminate].
Defined.

(** ** Nothing listed is lost *)

(** X28: when the reconstruction succeeds, every listed object has a
    node in the final tree with its stripped key and its key parts: its
    own node, or the node of an earlier object or folder with the same
    stripped key. *)
Theorem every_listed_object_has_a_node (options : Options)
  (allObjects : list S3.Object) (tree : list TreeNode) (o : S3.Object) :
  result options allObjects = Some tree ->
  In o allObjects ->
  exists t,
    In t tree
    /\ normalizedKey (node t) = removeLeadingTrailingSlashes (S3.Key o)
    /\ KeyParts (node t) = keyPartsOf (S3.Key o)
    /\ 1 <= LevelsDeep (node t).
Proof.
  intros Hres Ho.
  destruct (result_Some _ _ _ Hres) as [classified [Hc [_ Hnodes]]].
  destruct (classify options allObjects o) as [r|] eqn:Hcl.
  2:{ assert (Hex : exists x, In x allObjects
                              /\ classify options allObjects x = None)
        by now exists o.
      apply mapThrow_None in Hex. unfold classifyAll in Hc. congruence. }
  assert (Hr : In r classified).
  { apply (mapThrow_In _ _ _ Hc). now exists o. }
  assert (Hrm : In r (merged options classified)).
  { apply merged_In. exists r. split; [exact Hr | now left]. }
  destruct (dedup_keeps_first _ _ Hrm) as [n [Hn [Hnk _]]].
  pose proof (merged_same_key _ _ _ n r Hc (dedup_incl _ _ Hn) Hrm Hnk)
    as [Hparts [Hdepth _]].
  pose proof (classify_Some _ _ _ _ Hcl) as [Hkey [Hrparts [Hne [Hlen _]]]].
  rewrite <- Hnodes in Hn. apply in_map_iff in Hn as [t [Hnode Ht]].
  exists t. rewrite Hnode. split; [exact Ht|].
  split; [rewrite Hnk; unfold normalizedKey; now rewrite Hkey|].
  split; [now rewrite Hparts|].
  rewrite Hdepth, Hlen. destruct (KeyParts r); [now elim Hne | simpl; lia].
Qed.

Lemma every_listed_object_has_a_node_witness :
  result sampleOptions sampleListing = Some sampleTree
  /\ In (objectWithKey "docs/readme.md") sampleListing
  /\ exists t,
       In t sampleTree
       /\ normalizedKey (node t)
          = removeLeadingTrailingSlashes
              (S3.Key (objectWithKey "docs/readme.md"))
       /\ KeyParts (node t)
          = keyPartsOf (S3.Key (objectWithKey "docs/readme.md"))
       /\ 1 <= LevelsDeep (node t).
Proof.
  split; [reflexivity|]. split; [simpl; tauto|].
  apply (every_listed_object_has_a_node sampleOptions sampleListing
           sampleTree (objectWithKey "docs/readme.md"));
    [reflexivity | simpl; tauto].
Defined.

(** ** Stripping, in the words of the claims *)

Lemma stripLeading_slashes_before (a s : string) :
  onlySlashes a = true ->
  stripLeadingSlashes (a ++ s) = stripLeadingSlashes s.
Proof.
  induction a as [|c a IH]; [reflexivity|]. simpl. intros H.
  apply andb_true_iff in H as [Hc Ha]. rewrite Hc. now apply IH.
Qed.

Lemma stripTrailing_snoc_any (x : string) :
  stripTrailingSlashes (x ++ "/") = stripTrailingSlashes x.
Proof.
  unfold stripTrailingSlashes. rewrite length_snoc.
  cbn [stripTrailingLoop]. now rewrite endsWithSlash_snoc, dropLast_snoc.
Qed.

Lemma slashes_shift (b : string) :
  onlySlashes b = true -> String Js.slash b = b ++ "/".
Proof.
  induction b as [|c b IH]; [reflexivity|]. simpl. intros H.
  apply andb_true_iff in H as [Hc Hb]. apply Ascii.eqb_eq in Hc. subst c.
  now rewrite <- IH.
Qed.

Lemma stripTrailing_slashes_after (b : string) :
  forall s,
    onlySlashes b = true ->
    stripTrailingSlashes (s ++ b) = stripTrailingSlashes s.
Proof.
  induction b as [|c b IH]; intros s H; [now rewrite append_nil_r|].
  pose proof H as Hall. simpl in H. apply andb_true_iff in H as [Hc Hb].
  apply Ascii.eqb_eq in Hc. subst c.
  rewrite (slashes_shift b Hb), <- append_assoc, stripTrailing_snoc_any.
  now apply IH.
Qed.

Lemma strip_only_slashes (s : string) :
  onlySlashes s = true -> removeLeadingTrailingSlashes (Some s) = Some "".
Proof.
  intros H. unfold removeLeadingTrailingSlashes.
  destruct (negb (Js.truthy s)) eqn:Ht.
  - apply negb_true_iff in Ht. unfold Js.truthy in Ht.
    apply negb_false_iff, String.eqb_eq in Ht. now subst s.
  - now rewrite stripLeading_onlySlashes.
Qed.

(** The program strips a key to [core] exactly when the key is slashes,
    [core], slashes, with no slash at either end of [core]. *)
Lemma stripsTo_iff (k core : string) :
  stripsTo k core <-> removeLeadingTrailingSlashes (Some k) = Some core.
Proof.
  split.
  - intros [a [b [Ha [Hb [Hk [Hstart Hend]]]]]]. subst k.
    destruct (String.eqb_spec core "") as [-> | Hcore].
    + apply strip_only_slashes. simpl.
      now rewrite onlySlashes_app, Ha, Hb.
    + unfold removeLeadingTrailingSlashes, Js.truthy.
      assert (Hne : a ++ core ++ b <> "").
      { destruct a; [|discriminate]. destruct core; [now elim Hcore|].
        discriminate. }
      apply String.eqb_neq in Hne. rewrite Hne. cbn [negb]. f_equal.
      rewrite stripLeading_slashes_before by exact Ha.
      rewrite stripLeading_id.
      * rewrite stripTrailing_slashes_after by exact Hb.
        now apply stripTrailing_id.
      * destruct core as [|c core']; [now elim Hcore|].
        cbn [String.append]. now rewrite startsWith_slash in *.
  - intros H.
    destruct (strip_decompose k) as [a [r [b [Hr [Hk [Ha [Hb [H1 H2]]]]]]]].
    rewrite Hr in H. inversion H; subst r.
    now exists a, b.
Qed.

Lemma find_split {A : Type} (p : A -> bool) (l : list A) (x : A) :
  find p l = Some x ->
  exists pre post,
    l = (pre ++ x :: post)%list
    /\ p x = true
    /\ forall y, In y pre -> p y = false.
Proof.
  induction l as [|z t IH]; simpl; intros H; [discriminate|].
  destruct (p z) eqn:Hz.
  - inversion H; subst. exists [], t. repeat split; [exact Hz|].
    intros y [].
  - destruct (IH H) as [pre [post [Hl [Hx Hpre]]]].
    exists (z :: pre), post. split; [simpl; now rewrite Hl|].
    split; [exact Hx|]. intros y [<- | Hy]; [exact Hz | now apply Hpre].
Qed.

(** C2: after the synthesize-and-merge step and the duplicate filter,
    no two nodes of the final list have keys that are equal once their
    leading and trailing slashes are stripped, and of the merged nodes
    whose keys strip to the same string the one kept is the first of the
    merged sequence. The stripped key compared by the program is the
    key without the slashes at its two ends. *)
Theorem final_keys_unique_first_wins (options : Options)
  (allObjects : list S3.Object) (tree : list TreeNode) :
  result options allObjects = Some tree ->
  exists classified,
    classifyAll options allObjects = Some classified
    /\ (forall m, In m (merged options classified) ->
          exists k core,
            Key m = Some k /\ stripsTo k core
            /\ normalizedKey m = Some core)
    /\ NoDup (map (fun t => normalizedKey (node t)) tree)
    /\ (forall i j t1 t2 k1 k2 core,
          nth_error tree i = Some t1 ->
          nth_error tree j = Some t2 ->
          Key (node t1) = Some k1 ->
          Key (node t2) = Some k2 ->
          stripsTo k1 core ->
          stripsTo k2 core ->
          i = j)
    /\ (forall t, In t tree ->
          firstWithKey (normalizedKey (node t)) (merged options classified)
          = Some (node t))
    /\ (forall m k core,
          In m (merged options classified) ->
          Key m = Some k ->
          stripsTo k core ->
          exists t pre post k',
            In t tree
            /\ merged options classified = (pre ++ node t :: post)%list
            /\ Key (node t) = Some k'
            /\ stripsTo k' core
            /\ forall m' k'',
                 In m' pre -> Key m' = Some k'' -> ~ stripsTo k'' core).
Proof.
  intros Hres.
  destruct (first_wins_by_normalizedKey _ _ _ Hres)
    as [classified [Hc [Hnd [Hkept Hfirst]]]].
  exists classified. split; [exact Hc|].
  assert (Hpin : forall m, In m (merged options classified) ->
            exists k core,
              Key m = Some k /\ stripsTo k core
              /\ normalizedKey m = Some core).
  { intros m Hm.
    destruct (merged_fields _ _ _ m Hc Hm) as [[k Hk] _].
    destruct (strip_decompose k) as [a [r [b [Hr Hrest]]]].
    exists k, r. split; [exact Hk|]. split; [now exists a, b|].
    unfold normalizedKey. now rewrite Hk. }
  assert (Hnk : forall n k core,
            Key n = Some k -> stripsTo k core ->
            normalizedKey n = Some core).
  { intros n k core Hk Hs. unfold normalizedKey. rewrite Hk.
    now apply stripsTo_iff. }
  split; [exact Hpin|]. split; [exact Hnd|]. split; [|split].
  - intros i j t1 t2 k1 k2 core Hi Hj Hk1 Hk2 Hs1 Hs2.
    apply (proj1 (NoDup_nth_error _) Hnd).
    + rewrite length_map. apply nth_error_Some. now rewrite Hi.
    + rewrite !nth_error_map, Hi, Hj. simpl.
      now rewrite (Hnk _ _ _ Hk1 Hs1), (Hnk _ _ _ Hk2 Hs2).
  - exact Hkept.
  - intros m k core Hm Hk Hs.
    destruct (Hfirst m Hm) as [t [Ht Hfind]].
    rewrite (Hnk _ _ _ Hk Hs) in Hfind.
    destruct (find_split _ _ _ Hfind) as [pre [post [Hl [Hx Hpre]]]].
    apply strictEq_true in Hx.
    assert (Htm : In (node t) (merged options classified)).
    { rewrite Hl. apply in_or_app. right. now left. }
    destruct (Hpin _ Htm) as [k' [core' [Hk' [Hs' Hnk']]]].
    rewrite Hnk' in Hx. inversion Hx; subst core'.
    exists t, pre, post, k'. repeat split; try assumption.
    intros m' k'' Hm' Hk'' Hs''.
    specialize (Hpre m' Hm'). rewrite (Hnk _ _ _ Hk'' Hs'') in Hpre.
    now rewrite strictEq_refl in Hpre.
Qed.

(** In the listing ["a/"; "a/b"] the folder ["a"] synthesized for the
    second object strips to the same key as the listed ["a/"], which
    comes first and is the node kept. *)
Lemma final_keys_unique_first_wins_witness :
  result sampleOptions slashListing = Some slashTree
  /\ classifyAll sampleOptions slashListing = Some [slashFolder; slashChild]
  /\ In slashSynthesized (merged sampleOptions [slashFolder; slashChild])
  /\ stripsTo "a" "a"
  /\ exists t pre post,
       In t slashTree
       /\ merged sampleOptions [slashFolder; slashChild]
          = (pre ++ node t :: post)%list
       /\ Key (node t) = Some "a/"
       /\ stripsTo "a/" "a".
Proof.
  assert (Ha : stripsTo "a" "a") by (exists "", ""; repeat split).
  split; [reflexivity|]. split; [reflexivity|].
  split; [simpl; tauto|]. split; [exact Ha|].
  destruct (final_keys_unique_first_wins sampleOptions slashListing
              slashTree eq_refl)
    as [classified [Hc [_ [_ [_ [_ Hfirst]]]]]].
  assert (Hc' : classifyAll sampleOptions slashListing
                = Some [slashFolder; slashChild]) by reflexivity.
  rewrite Hc' in Hc. inversion Hc; subst classified.
  destruct (Hfirst slashSynthesized "a" "a") as [t [pre [post [k' H]]]];
    [simpl; tauto | reflexivity | exact Ha |].
  destruct H as [Ht [Hl [Hk' [Hs' _]]]].
  exists t, pre, post. split; [exact Ht|]. split; [exact Hl|].
  apply stripsTo_iff in Hs'.
  destruct Ht as [<- | [<- | [<- | []]]]; simpl in Hk';
    inversion Hk'; subst k'; try discriminate Hs'.
  split; [reflexivity|]. now apply stripsTo_iff.
Defined.

(** C4: every node of the final tree has a key, and its children are
    exactly the nodes of the tree whose parent key, without its leading
    and trailing slashes, equals the key of the node without its own;
    the root, the node with key "/", has instead exactly the nodes of
    depth 1. This holds for every node, so for every folder. *)
Theorem children_are_nodes_by_parent (options : Options)
  (allObjects : list S3.Object) (tree : list TreeNode) (t : TreeNode) :
  result options allObjects = Some tree ->
  In t tree ->
  exists k,
    Key (node t) = Some k
    /\ (k = "/" ->
        forall m, In m (Children t)
                  <-> In m (map node tree) /\ LevelsDeep m = 1)
    /\ (k <> "/" ->
        forall m, In m (Children t)
                  <-> In m (map node tree)
                      /\ exists core,
                           stripsTo (ParentKey m) core /\ stripsTo k core).
Proof.
  intros Hres Ht.
  destruct (children_by_normalized_parent _ _ _ t Hres Ht) as [Hroot Hother].
  destruct (tree_in_merged _ _ _ Hres) as [classified [Hc [_ Hin]]].
  destruct (merged_fields _ _ _ (node t) Hc (Hin _ (in_map node _ _ Ht)))
    as [[k Hk] _].
  exists k. split; [exact Hk|]. split.
  - intros ->. now apply Hroot.
  - intros Hne m. rewrite Hother by (rewrite Hk; congruence).
    rewrite Hk. split; intros [Hm Heq]; (split; [exact Hm|]).
    + destruct (strip_decompose (ParentKey m))
        as [a [r [b [Hr [Hp [Ha [Hb [H1 H2]]]]]]]].
      exists r. split; [now exists a, b|].
      apply stripsTo_iff. now rewrite <- Heq.
    + destruct Heq as [core [Hp Hkc]].
      apply stripsTo_iff in Hp, Hkc. now rewrite Hp, Hkc.
Qed.

(** In the listing ["a/"; "a/b"] the listed folder ["a/"] has the child
    ["a/b"], whose parent key is ["a"]. *)
Lemma children_are_nodes_by_parent_witness :
  let t := {| node := slashFolder; Children := [slashChild] |} in
  result sampleOptions slashListing = Some slashTree
  /\ In t slashTree
  /\ Key (node t) = Some "a/"
  /\ ParentKey slashChild = "a"
  /\ In slashChild (Children t).
Proof.
  intros t. split; [reflexivity|]. split; [simpl; tauto|].
  split; [reflexivity|]. split; [reflexivity|].
  destruct (children_are_nodes_by_parent sampleOptions slashListing
              slashTree t eq_refl) as [k [Hk [_ Hother]]];
    [simpl; tauto|].
  inversion Hk; subst k.
  apply Hother; [discriminate|].
  split; [simpl; tauto|].
  exists "a". split; [exists "", ""; repeat split|].
  exists "", "/". repeat split.
Defined.

(** ** The requests of a run *)








Example two_page_run :
  sentCommands
    (trace (run String.compare String.compare 8 twoPageService sampleOptions))
  = [{| Bucket := "site"; MaxKeys := 1000; Marker := None |};
     {| Bucket := "site"; MaxKeys := 100; Marker := Some "m" |}].
Proof. reflexivity. Qed.

(** ** What is written before the pages *)

(** X18: a run that stops before the pages writes nothing. When a
    listing request is rejected, or when the listing holds an object
    whose key has no segment, so that the classification throws, the
    run ends on a guard or on the rejection, and its trace holds no
    directory, no index page, no sitemap and no copy of the public
    folder. *)
Theorem nothing_written_before_the_pages
  (localeCompare compareCodeUnits : string -> string -> comparison)
  (fuel : nat) (send : ListObjectsCommand -> option Response)
  (cli : Options) :
  snd (listingOf fuel send cli) = SendRejected
  \/ (exists allObjects o,
         snd (listingOf fuel send cli) = AllObjects allObjects
         /\ In o allObjects
         /\ keyPartsOf (S3.Key o) = []) ->
  (status (run localeCompare compareCodeUnits fuel send cli) = Exit 1
   \/ status (run localeCompare compareCodeUnits fuel send cli) = Rejected)
  /\ filter writesOutput
       (trace (run localeCompare compareCodeUnits fuel send cli))
     = [].
Proof.
  intros Hcause.
  assert (Hstatus :
            status (run localeCompare compareCodeUnits fuel send cli)
            = Exit 1
            \/ status (run localeCompare compareCodeUnits fuel send cli)
               = Rejected).
  { unfold run. unfold listingOf in Hcause.
    destruct (includeSitemap (normalizeOptions cli)
              && negb (Js.truthy (domain (normalizeOptions cli))));
      [now left|].
    destruct (negb (Js.truthy (bucket (normalizeOptions cli))));
      [now left|].
    right.
    destruct (listAll fuel send (normalizeOptions cli) _)
      as [sent listed].
    cbn [snd] in Hcause.
    destruct Hcause as [-> | [allObjects [o [-> [Ho Hnil]]]]];
      [reflexivity|].
    assert (Hres : result (normalizeOptions cli) allObjects = None).
    { unfold result, classifyAll.
      assert (Hex : exists x, In x allObjects
                    /\ classify (normalizeOptions cli) allObjects x = None).
      { exists o. split; [exact Ho | now apply classify_None]. }
      apply mapThrow_None in Hex. now rewrite Hex. }
    now rewrite Hres. }
  split; [exact Hstatus|].
  apply unfinished_run_writes_nothing.
  destruct Hstatus as [-> | ->]; discriminate.
Qed.

Lemma nothing_written_before_the_pages_witness :
  snd (listingOf 8 rejectingService sampleOptions) = SendRejected
  /\ status (run String.compare String.compare 8 rejectingService
               sampleOptions)
     = Rejected
  /\ filter writesOutput
       (trace (run String.compare String.compare 8 rejectingService
                 sampleOptions))
     = [].
Proof.
  split; [reflexivity|].
  destruct (nothing_written_before_the_pages String.compare String.compare 8
              rejectingService sampleOptions (or_introl eq_refl))
    as [_ Hnone].
  split; [reflexivity | exact Hnone].
Defined.

(** A key without segment in the listing: the run is rejected before
    any page. *)
Example key_without_segment_rejects :
  let service (command : ListObjectsCommand) :=
    Some {| Contents := Some [objectWithKey "a/b"; objectWithKey "//"];
            NextMarker := None |} in
  run String.compare String.compare 8 service sampleOptions
  = {| trace := [Send {| Bucket := "site"; MaxKeys := 1000;
                         Marker := None |}];
       status := Rejected |}.
Proof. reflexivity. Qed.
